(** * python-polarion: the work item mirror, its deferred-save scope and
      the linked work item iterator (src/polarion/workitem.py)

    The development embeds three parts of [Workitem]:
    - the change tracking of [save], [_buildWorkitemFromPolarion] and
      [_reloadFromPolarion] (a snapshot [_original_polarion] against the
      attributes projected on the object);
    - the context manager [__enter__] / [__exit__] driving [_postpone_save];
    - [Workitem.WorkItemIterator], the role-filtered scan of linked items.

    Python values are pure trees here, floating point numbers are left out
    (so [!=] is the negation of a reflexive [==]). The attributes
    projected on the object share their values with [_polarion_item], and
    the snapshot is a deep copy: an edit made in place through the object
    ([self.status.id = status]) shows on the object and not in the
    snapshot. It is modelled as the write of the edited value to the
    attribute; the values held by [_polarion_item] are not read by [save],
    which only walks its keys. *)

From Stdlib Require Import String Ascii List ZArith Bool Lia.
From stdpp Require Import gmap strings list fin_maps.

Local Open Scope string_scope.
Local Open Scope list_scope.

(** ** Python values *)

(** The values a field of a SOAP record can hold: [None], booleans,
    integers, strings, lists and nested zeep objects (an ordered mapping
    from attribute names to values). *)
#[warnings="-register-all"]
Inductive pyval : Type :=
| VNone
| VBool (b : bool)
| VInt (z : Z)
| VStr (s : string)
| VList (items : list pyval)
| VObj (fields : list (string * pyval)).

(** [a == b]. Booleans compare with integers as 0 and 1; lists compare
    element-wise; zeep objects compare their value mappings, entry by entry
    (two objects of one type list their attributes in the same order). *)
Fixpoint py_eq (a b : pyval) {struct a} : bool :=
  match a, b with
  | VNone, VNone => true
  | VBool x, VBool y => Bool.eqb x y
  | VBool x, VInt y => Z.eqb (Z.b2z x) y
  | VInt x, VBool y => Z.eqb x (Z.b2z y)
  | VInt x, VInt y => Z.eqb x y
  | VStr x, VStr y => String.eqb x y
  | VList xs, VList ys =>
      (fix all2 (xs ys : list pyval) {struct xs} : bool :=
         match xs, ys with
         | [], [] => true
         | x :: xs', y :: ys' => py_eq x y && all2 xs' ys'
         | _, _ => false
         end) xs ys
  | VObj xs, VObj ys =>
      (fix all2 (xs ys : list (string * pyval)) {struct xs} : bool :=
         match xs, ys with
         | [], [] => true
         | (k, x) :: xs', (k', y) :: ys' =>
             String.eqb k k' && py_eq x y && all2 xs' ys'
         | _, _ => false
         end) xs ys
  | _, _ => false
  end.

(** [a != b] *)
Definition py_ne (a b : pyval) : bool := negb (py_eq a b).

(** Truth value of an object, as [not x] and [if x:] test it. *)
Definition truthy (v : pyval) : bool :=
  match v with
  | VNone => false
  | VBool b => b
  | VInt z => negb (Z.eqb z 0)
  | VStr s => negb (String.eqb s "")
  | VList l => match l with [] => false | _ => true end
  | VObj _ => true
  end.

(** ** Raw records *)

(** A zeep object as fetched from the Tracker service. Its [__dict__] has
    the single entry [__values__], the ordered mapping of the record's
    fields, so [for attr, value in item.__dict__.items()] runs its body
    once, with [value] bound to this mapping. *)
Definition RawRecord : Type := list (string * pyval).

(** [for key in value] *)
Definition keys (value : RawRecord) : list string := map fst value.

(** [value[key]], and [getattr(item, key)] on a zeep object *)
Fixpoint getitem (value : RawRecord) (key : string) : option pyval :=
  match value with
  | [] => None
  | (k, v) :: rest => if String.eqb k key then Some v else getitem rest key
  end.

(** [copy.deepcopy]: values are immutable trees, the copy is the tree. *)
Definition deepcopy (item : RawRecord) : RawRecord := item.

(** ** Exceptions *)

Inductive exn : Type :=
| AttributeError (name : string)
| KeyError (name : string)
| PolarionAccessError
| Fault (what : string).

(** ** The work item object *)

Record Workitem : Type := mkWorkitem {
  _id : pyval;
  _postpone_save : bool;
  _polarion_item : option RawRecord;
  _original_polarion : option RawRecord;
  (** the attributes set on the object itself: the caller-visible fields *)
  attrs : gmap string pyval
}.

Definition set_postpone_save (b : bool) (wi : Workitem) : Workitem :=
  mkWorkitem (_id wi) b (_polarion_item wi) (_original_polarion wi) (attrs wi).

Definition set_polarion_item (it : option RawRecord) (wi : Workitem) : Workitem :=
  mkWorkitem (_id wi) (_postpone_save wi) it (_original_polarion wi) (attrs wi).

Definition set_original_polarion (it : option RawRecord) (wi : Workitem) : Workitem :=
  mkWorkitem (_id wi) (_postpone_save wi) (_polarion_item wi) it (attrs wi).

Definition set_id (i : pyval) (wi : Workitem) : Workitem :=
  mkWorkitem i (_postpone_save wi) (_polarion_item wi) (_original_polarion wi)
    (attrs wi).

Definition set_attrs (a : gmap string pyval) (wi : Workitem) : Workitem :=
  mkWorkitem (_id wi) (_postpone_save wi) (_polarion_item wi) (_original_polarion wi) a.

(** Remote operations issued on the Tracker service, in call order. *)
Inductive call : Type :=
| UpdateWorkItem (updated_item : gmap string pyval)
| GetWorkItemByUri (uri : pyval).

Definition is_update (c : call) : bool :=
  match c with UpdateWorkItem _ => true | GetWorkItemByUri _ => false end.

Definition count_updates (l : list call) : nat := length (filter is_update l).

(** The inner loop of [_buildWorkitemFromPolarion]:
    [for key in value: setattr(self, key, value[key])]. *)
Fixpoint project (ks : list string) (value : RawRecord) (a : gmap string pyval)
  : exn + gmap string pyval :=
  match ks with
  | [] => inr a
  | key :: ks' =>
      match getitem value key with
      | Some v => project ks' value (<[key := v]> a)
      | None => inl (KeyError key)
      end
  end.

(** The loop of [save]: collects in [updated_item] the keys whose attribute
    on the object differs from the attribute of the snapshot. *)
Fixpoint changed_loop (ks : list string) (a : gmap string pyval)
    (original : RawRecord) (updated_item : gmap string pyval)
  : exn + gmap string pyval :=
  match ks with
  | [] => inr updated_item
  | key :: ks' =>
      match a !! key with
      | None => inl (AttributeError key)
      | Some current_value =>
          match getitem original key with
          | None => inl (AttributeError key)
          | Some prev_value =>
              changed_loop ks' a original
                (if py_ne current_value prev_value
                 then <[key := current_value]> updated_item
                 else updated_item)
          end
      end
  end.

(** [updated_item] as [save] has it when its loop ends. *)
Definition changed_fields (wi : Workitem) : exn + gmap string pyval :=
  match _polarion_item wi with
  | None => inl (AttributeError "__dict__")
  | Some value =>
      match _original_polarion wi with
      | None => inl (AttributeError "_original_polarion")
      | Some original => changed_loop (keys value) (attrs wi) original ∅
      end
  end.

(** Whether [save] sees the field [k] as changed: the attribute on the
    object and the attribute of the snapshot both exist and are [!=]. *)
Definition field_differs (wi : Workitem) (k : string) : bool :=
  match attrs wi !! k, _original_polarion wi with
  | Some current_value, Some original =>
      match getitem original k with
      | Some prev_value => py_ne current_value prev_value
      | None => false
      end
  | _, _ => false
  end.

Definition differs (a : gmap string pyval) (original : RawRecord) (k : string) : bool :=
  match a !! k, getitem original k with
  | Some c, Some p => py_ne c p
  | _, _ => false
  end.

(** The field names [save] visits: [for key in value]. *)
Definition record_keys (wi : Workitem) : list string :=
  match _polarion_item wi with
  | Some value => keys value
  | None => []
  end.

(** The update call a flush of [wi] sends: the changed fields and the
    record's [uri]; none when nothing changed or when the loop of [save]
    raised. *)
Definition flush_update (wi : Workitem) : list call :=
  match changed_fields wi with
  | inr d =>
      if Nat.ltb 0 (size d) then
        match attrs wi !! "uri" with
        | Some u => [UpdateWorkItem (<["uri" := u]> d)]
        | None => []
        end
      else []
  | inl _ => []
  end.

(** The object shows, at every field of the snapshot, the snapshot's value. *)
Definition shadow_matches_snapshot (wi : Workitem) : Prop :=
  exists original, _original_polarion wi = Some original /\
    _polarion_item wi = Some original /\
    forall k, k ∈ keys original -> attrs wi !! k = getitem original k.

Section Tracker.

(** The Tracker service is outside the module: any state and any behaviour
    of its two operations. Both may raise. *)
Variable Server : Type.
Variable updateWorkItem : Server -> gmap string pyval -> (exn + unit) * Server.
Variable getWorkItemByUri : Server -> pyval -> (exn + option RawRecord) * Server.

(** The type factories of the client object, [self._polarion.TextType] and
    [self._polarion.EnumOptionIdType], are not part of this module. *)
Variable TextType : pyval -> pyval -> pyval -> pyval.
Variable EnumOptionIdType : pyval -> pyval.

Record World : Type := mkWorld {
  self : Workitem;
  server : Server;
  log : list call
}.

(** Computations over the world that may raise; what was done before the
    exception stays done. *)
Definition M (A : Type) : Type := World -> (exn + A) * World.

Definition ret {A} (x : A) : M A := fun w => (inr x, w).
Definition raise {A} (e : exn) : M A := fun w => (inl e, w).
Definition bind {A B} (m : M A) (k : A -> M B) : M B :=
  fun w => match m w with
           | (inl e, w') => (inl e, w')
           | (inr x, w') => k x w'
           end.
Definition lift {A} (r : exn + A) : M A := fun w => (r, w).
Definition get_self : M Workitem := fun w => (inr (self w), w).
Definition modify_self (f : Workitem -> Workitem) : M unit :=
  fun w => (inr tt, mkWorld (f (self w)) (server w) (log w)).

Notation "x <~ m ;; k" := (bind m (fun x => k))
  (at level 100, m at next level, right associativity).
Notation "m ;;; k" := (bind m (fun _ => k))
  (at level 100, right associativity).

(** [service.updateWorkItem(updated_item)] *)
Definition call_updateWorkItem (updated_item : gmap string pyval) : M unit :=
  fun w =>
    let '(r, s) := updateWorkItem (server w) updated_item in
    (r, mkWorld (self w) s (log w ++ [UpdateWorkItem updated_item])).

(** [service.getWorkItemByUri(uri)] *)
Definition call_getWorkItemByUri (uri : pyval) : M (option RawRecord) :=
  fun w =>
    let '(r, s) := getWorkItemByUri (server w) uri in
    (r, mkWorld (self w) s (log w ++ [GetWorkItemByUri uri])).

(** [getattr(obj, name)] on a zeep object that may be [None] *)
Definition item_attr (it : option RawRecord) (name : string) : exn + pyval :=
  match it with
  | None => inl (AttributeError name)
  | Some value =>
      match getitem value name with
      | Some v => inr v
      | None => inl (AttributeError name)
      end
  end.

(** [getattr(self, name)] *)
Definition self_attr (wi : Workitem) (name : string) : exn + pyval :=
  match attrs wi !! name with
  | Some v => inr v
  | None => inl (AttributeError name)
  end.

Definition _buildWorkitemFromPolarion : M unit :=
  wi <~ get_self ;;
  match _polarion_item wi with
  | None => raise PolarionAccessError
  | Some value =>
      unresolvable <~ lift (item_attr (Some value) "unresolvable") ;;
      if negb (truthy unresolvable) then
        modify_self (set_original_polarion (Some (deepcopy value))) ;;;
        if negb (_postpone_save wi) then
          a <~ lift (project (keys value) value (attrs wi)) ;;
          modify_self (set_attrs a)
        else ret tt
      else raise PolarionAccessError
  end.

Definition _reloadFromPolarion : M unit :=
  wi <~ get_self ;;
  uri <~ lift (item_attr (_polarion_item wi) "uri") ;;
  it <~ call_getWorkItemByUri uri ;;
  modify_self (set_polarion_item it) ;;;
  _buildWorkitemFromPolarion.

Definition save : M unit :=
  wi <~ get_self ;;
  if _postpone_save wi then ret tt
  else
    updated_item <~ lift (changed_fields wi) ;;
    if Nat.ltb 0 (size updated_item) then
      uri <~ lift (self_attr wi "uri") ;;
      call_updateWorkItem (<["uri" := uri]> updated_item) ;;;
      _reloadFromPolarion
    else ret tt.

Definition __enter__ : M unit := modify_self (set_postpone_save true).

Definition __exit__ : M unit :=
  modify_self (set_postpone_save false) ;;;
  save.

(** [with wi: body]. [__exit__] returns [None], so an exception of the body
    is raised again after it; an exception of [__exit__] replaces it. *)
Definition with_ {A} (body : M A) : M A :=
  fun w =>
    let '(_, w1) := __enter__ w in
    let '(r, w2) := body w1 in
    match __exit__ w2 with
    | (inl e, w3) => (inl e, w3)
    | (inr _, w3) => (r, w3)
    end.

(** [setattr(self, key, value)], the plain assignment [wi.key = value] *)
Definition setattr (key : string) (value : pyval) : M unit :=
  modify_self (fun wi => set_attrs (<[key := value]> (attrs wi)) wi).

Definition setDescription (description : pyval) : M unit :=
  setattr "description"
    (TextType description (VStr "text/html") (VBool false)) ;;;
  save.

(** [obj.name = value] on a zeep object: the entry of its value mapping is
    replaced, or added at the end. *)
Fixpoint setitem (fields : list (string * pyval)) (name : string) (value : pyval)
  : list (string * pyval) :=
  match fields with
  | [] => [(name, value)]
  | (k, v) :: rest =>
      if String.eqb k name then (k, value) :: rest
      else (k, v) :: setitem rest name value
  end.

Definition setResolution (resolution : pyval) : M unit :=
  wi <~ get_self ;;
  current <~ lift (self_attr wi "resolution") ;;
  match current with
  | VNone => setattr "resolution" (EnumOptionIdType resolution)
  | VObj fields => setattr "resolution" (VObj (setitem fields "id" resolution))
  | _ => raise (AttributeError "id")
  end ;;;
  save.

(** The field mutations a caller performs on a work item. *)
Inductive mutation : Type :=
| Assign (key : string) (value : pyval)
| SetDescription (description : pyval)
| SetResolution (resolution : pyval).

Definition mutate (m : mutation) : M unit :=
  match m with
  | Assign key value => setattr key value
  | SetDescription d => setDescription d
  | SetResolution r => setResolution r
  end.

(** The mutations of a scope body, in order; the first exception ends it. *)
Fixpoint mutate_all (ms : list mutation) : M unit :=
  match ms with
  | [] => ret tt
  | m :: ms' => mutate m ;;; mutate_all ms'
  end.

(** [Workitem.__init__] called with an [uri] or with [polarion_workitem]
    (and a project; [id] and [new_workitem_type] left [None]). [base] holds
    what the base classes set on the object. *)
Definition __init__ (base : gmap string pyval) (uri : pyval)
    (polarion_workitem : option RawRecord) : M unit :=
  modify_self (fun _ => mkWorkitem VNone false None None base) ;;;
  (if truthy uri then
     (fun w => match call_getWorkItemByUri uri w with
               | (inl _, w') => (inl PolarionAccessError, w')
               | (inr it, w') => modify_self (set_polarion_item it) w'
               end) ;;;
     wi <~ get_self ;;
     i <~ lift (item_attr (_polarion_item wi) "id") ;;
     modify_self (set_id i)
   else
     match polarion_workitem with
     | Some it =>
         modify_self (set_polarion_item (Some it)) ;;;
         i <~ lift (item_attr (Some it) "id") ;;
         modify_self (set_id i)
     | None => raise PolarionAccessError
     end) ;;;
  _buildWorkitemFromPolarion.

(** The remote calls a computation issues when run from [w], in order. *)
Definition issued {A} (m : M A) (w : World) : list call :=
  drop (length (log w)) (log (snd (m w))).

(** Every field [save] sends differs from the snapshot. *)
Definition sends_only_differing_fields (w : World) : Prop :=
  forall p k, In (UpdateWorkItem p) (issued save w) ->
    is_Some (p !! k) -> field_differs (self w) k = true.

(** A scope around the mutations [ms] issues exactly one update. *)
Definition scope_issues_one_update (w : World) (ms : list mutation) : Prop :=
  count_updates (issued (with_ (mutate_all ms)) w) = 1.

(** A reload that returns leaves the object equal to the snapshot. *)
Definition reload_resyncs (w : World) : Prop :=
  fst (_reloadFromPolarion w) = inr tt ->
  shadow_matches_snapshot (self (snd (_reloadFromPolarion w))).

(** Inside an outer scope that was entered at [w], an inner scope around
    [inner] issues no update and leaves saving postponed. *)
Definition inner_scope_stays_deferred {A} (w : World) (inner : M A) : Prop :=
  let w1 := snd (__enter__ w) in
  count_updates (issued (with_ inner) w1) = 0 /\
  _postpone_save (self (snd (with_ inner w1))) = true.

End Tracker.

Arguments self {Server} _.
Arguments server {Server} _.
Arguments log {Server} _.
Arguments mkWorld {Server} _ _ _.
Arguments issued {Server A} _ _.

(** ** Linked work items *)

(** [LinkedWorkitem = namedtuple('LinkedWorkitem', ['role', 'uri'])] *)
Record LinkedWorkitem : Type := mkLinkedWorkitem {
  role : string;
  uri : pyval
}.

(** What [obj.role] is on an element of the raw collection. *)
Inductive role_attr : Type :=
| RoleMissing                 (* the object has no attribute [role] *)
| RoleNone                    (* [obj.role] is [None] *)
| RoleObj (id : string).      (* an EnumOptionId with its [id] *)

(** An element of [linkedWorkItems.LinkedWorkItem]. The iterator only reads
    the attributes [role] and [workItemURI]; [None] for [workItemURI] is an
    object without that attribute. *)
Record RawEdge : Type := mkRawEdge {
  obj_role : role_attr;
  obj_workItemURI : option pyval
}.

(** The object held in [_polarion_item.linkedWorkItems] when it is not
    [None]; [LinkedWorkItem = None] is an object without that attribute. *)
Record EdgeContainer : Type := mkEdgeContainer {
  LinkedWorkItem : option (list RawEdge)
}.

(** The [roles] argument: [None], one string, or a sequence of strings. *)
Inductive roles_arg : Type :=
| RolesNone
| RolesStr (token : string)
| RolesSeq (tokens : list string).

Module WorkItemIterator.

Record t : Type := mk {
  _linkedWorkItems : option EdgeContainer;
  _index : nat;
  _disallowed_roles : option (list string);
  _allowed_roles : option (list string)
}.

(** [lst.append(x)] on an attribute that starts as [None] *)
Definition append (l : option (list string)) (x : string) : option (list string) :=
  match l with
  | None => Some [x]
  | Some l' => Some (l' ++ [x])
  end.

(** The loop [for role in roles] of [__init__], on the pair
    ([_disallowed_roles], [_allowed_roles]). *)
Fixpoint split_roles (roles : list string)
    (dis allow : option (list string))
  : option (list string) * option (list string) :=
  match roles with
  | [] => (dis, allow)
  | r :: rest =>
      match r with
      | String "~"%char tail => split_roles rest (append dis tail) allow
      | _ => split_roles rest dis (append allow r)
      end
  end.

Definition __init__ (linkedWorkItems : option EdgeContainer) (roles : roles_arg) : t :=
  let '(dis, allow) :=
    match roles with
    | RolesNone => (None, None)
    | RolesStr s => split_roles [s] None None
    | RolesSeq l => split_roles l None None
    end in
  mk linkedWorkItems 0 dis allow.

(** [role in lst] *)
Definition role_in (r : string) (l : list string) : bool :=
  existsb (String.eqb r) l.

(** The test guarding [return LinkedWorkitem(role, uri)]. *)
Definition accepted (dis allow : option (list string)) (r : string) : bool :=
  match dis with None => true | Some d => negb (role_in r d) end
  && match allow with None => true | Some a => role_in r a end.

(** [try: role = obj.role.id / except AttributeError: role = 'NA'] *)
Definition role_of (obj : RawEdge) : string :=
  match obj_role obj with
  | RoleObj id => id
  | RoleNone | RoleMissing => "NA"
  end.

(** Exceptions inside [__next__]. *)
Inductive signal : Type :=
| StopIteration
| IndexError
| AttrError (name : string).

(** The [while True] loop. [rest] is [LinkedWorkItem[_index:]]: the test
    [_index < len(...)] holds when it is not empty, and its head is
    [LinkedWorkItem[_index]]. Returns the cursor as the loop leaves it. *)
Fixpoint scan (dis allow : option (list string)) (rest : list RawEdge)
    (index : nat) : (signal + LinkedWorkitem) * nat :=
  match rest with
  | [] => (inl StopIteration, index)
  | obj :: rest' =>
      let index := S index in
      let r := role_of obj in
      match obj_workItemURI obj with
      | None => (inl (AttrError "workItemURI"), index)
      | Some u =>
          if accepted dis allow r then (inr (mkLinkedWorkitem r u), index)
          else scan dis allow rest' index
      end
  end.

Definition set_index (i : nat) (it : t) : t :=
  mk (_linkedWorkItems it) i (_disallowed_roles it) (_allowed_roles it).

(** The body of the [try] block. *)
Definition next_body (it : t) (c : EdgeContainer) : (signal + LinkedWorkitem) * t :=
  match LinkedWorkItem c with
  | None => (inl (AttrError "LinkedWorkItem"), it)
  | Some items =>
      let '(r, i) := scan (_disallowed_roles it) (_allowed_roles it)
                       (drop (_index it) items) (_index it) in
      (r, set_index i it)
  end.

(** [__next__]: [IndexError] and [AttributeError] become [StopIteration]. *)
Definition __next__ (it : t) : (signal + LinkedWorkitem) * t :=
  match _linkedWorkItems it with
  | None => (inl StopIteration, it)
  | Some c =>
      match next_body it c with
      | (inl IndexError, it') => (inl StopIteration, it')
      | (inl (AttrError _), it') => (inl StopIteration, it')
      | other => other
      end
  end.

(** [list(it)]: calls [__next__] until it raises; [StopIteration] ends the
    list, any other exception propagates. [None] when [fuel] calls were not
    enough. *)
Fixpoint collect (fuel : nat) (it : t) : option (signal + list LinkedWorkitem) :=
  match fuel with
  | O => None
  | S fuel' =>
      match __next__ it with
      | (inl StopIteration, _) => Some (inr [])
      | (inl e, _) => Some (inl e)
      | (inr x, it') =>
          match collect fuel' it' with
          | Some (inr xs) => Some (inr (x :: xs))
          | other => other
          end
      end
  end.

End WorkItemIterator.

(** ** The filter rule, stated on the tokens of the [roles] argument *)

Definition tokens (roles : roles_arg) : list string :=
  match roles with
  | RolesNone => []
  | RolesStr s => [s]
  | RolesSeq l => l
  end.

(** A token prefixed with [~] *)
Definition negated (token : string) : bool :=
  match token with
  | String "~"%char _ => true
  | _ => false
  end.

(** [token[1:]] *)
Definition strip (token : string) : string :=
  match token with
  | String _ tail => tail
  | EmptyString => EmptyString
  end.

(** The deny-list: the negated tokens, without their prefix. *)
Definition deny_list (roles : roles_arg) : list string :=
  map strip (List.filter negated (tokens roles)).

(** The allow-list: the plain tokens. *)
Definition allow_list (roles : roles_arg) : list string :=
  List.filter (fun t => negb (negated t)) (tokens roles).

(** (deny-list is empty or role not in deny-list) and (allow-list is empty
    or role in allow-list) *)
Definition admits (roles : roles_arg) (r : string) : Prop :=
  (deny_list roles = [] \/ ~ In r (deny_list roles)) /\
  (allow_list roles = [] \/ In r (allow_list roles)).

Definition is_nil {A} (l : list A) : bool :=
  match l with [] => true | _ => false end.

Definition admitsb (roles : roles_arg) (r : string) : bool :=
  (is_nil (deny_list roles) || negb (WorkItemIterator.role_in r (deny_list roles)))
  && (is_nil (allow_list roles) || WorkItemIterator.role_in r (allow_list roles)).

(** What the loop of [__init__] adds to a list attribute that was [o]. *)
Definition extend (o : option (list string)) (l : list string) : option (list string) :=
  match l with
  | [] => o
  | _ => Some (match o with Some l0 => l0 | None => [] end ++ l)
  end.

Definition has_target (obj : RawEdge) : bool :=
  match obj_workItemURI obj with Some _ => true | None => false end.

(** The edge an element of the raw collection is yielded as. *)
Definition edge_of (obj : RawEdge) : LinkedWorkitem :=
  mkLinkedWorkitem (WorkItemIterator.role_of obj)
    (match obj_workItemURI obj with Some u => u | None => VNone end).

(** The longest prefix of elements that have a [workItemURI]. *)
Fixpoint leading_valid (items : list RawEdge) : list RawEdge :=
  match items with
  | [] => []
  | obj :: rest => if has_target obj then obj :: leading_valid rest else []
  end.

(** The accepted edges of that prefix, in the order of the collection. *)
Definition yielded (dis allow : option (list string)) (items : list RawEdge)
  : list LinkedWorkitem :=
  map edge_of
    (List.filter (fun obj => WorkItemIterator.accepted dis allow (WorkItemIterator.role_of obj))
       (leading_valid items)).

(** An iterator over the collection [items]. *)
Definition over (items : list RawEdge) (roles : roles_arg) : WorkItemIterator.t :=
  WorkItemIterator.__init__ (Some (mkEdgeContainer (Some items))) roles.

(** ** A small tracker to run the model on *)

Module Demo.

(** The service keeps one record; [reject] makes [updateWorkItem] raise. *)
Record Server : Type := mkServer {
  reject : bool;
  stored : RawRecord
}.

Definition overwrite (updated_item : gmap string pyval) (r : RawRecord) : RawRecord :=
  map (fun kv => match updated_item !! fst kv with
                 | Some v => (fst kv, v)
                 | None => kv
                 end) r.

Definition updateWorkItem (s : Server) (updated_item : gmap string pyval)
  : (exn + unit) * Server :=
  if reject s then (inl (Fault "update rejected"), s)
  else (inr tt, mkServer (reject s) (overwrite updated_item (stored s))).

Definition getWorkItemByUri (s : Server) (u : pyval)
  : (exn + option RawRecord) * Server :=
  (inr (Some (stored s)), s).

Definition TextType (content type contentLossy : pyval) : pyval :=
  VObj [("type", type); ("content", content); ("contentLossy", contentLossy)].

Definition EnumOptionIdType (id : pyval) : pyval := VObj [("id", id)].

Definition item0 : RawRecord :=
  [("uri", VStr "subterra:data-service:objects:/default/P${WorkItem}P-1");
   ("unresolvable", VBool false);
   ("id", VStr "P-1");
   ("title", VStr "a");
   ("resolution", VNone)].

Definition W : Type := World Server.

(** The world before the constructor runs. *)
Definition blank (rej : bool) (it : RawRecord) : W :=
  mkWorld (mkWorkitem VNone false None None ∅) (mkServer rej it) [].

(** The world after [Workitem(polarion, project, polarion_workitem=it)]. *)
Definition loaded (rej : bool) (it : RawRecord) : W :=
  snd (__init__ Server getWorkItemByUri ∅ VNone (Some it) (blank rej it)).

Definition run_save : M Server unit := save Server updateWorkItem getWorkItemByUri.
Definition run_reload : M Server unit := _reloadFromPolarion Server getWorkItemByUri.
Definition run_exit : M Server unit := __exit__ Server updateWorkItem getWorkItemByUri.
Definition run_mutations (ms : list mutation) : M Server unit :=
  mutate_all Server updateWorkItem getWorkItemByUri TextType EnumOptionIdType ms.
Definition run_with {A} (body : M Server A) : M Server A :=
  with_ Server updateWorkItem getWorkItemByUri body.

(** [wi.title = 'b'] on a loaded work item. *)
Definition dirty (rej : bool) : W :=
  snd (run_mutations [Assign "title" (VStr "b")] (loaded rej item0)).

(** The same assignment made inside a scope that has not ended. *)
Definition edited_in_scope : W :=
  snd (run_mutations [Assign "title" (VStr "b")]
         (snd (__enter__ Server (loaded false item0)))).

Definition edge (r : role_attr) (target : string) : RawEdge :=
  mkRawEdge r (Some (VStr target)).

(** The collection of three links: two of role verifies, one parent. *)
Definition links : list RawEdge :=
  [edge (RoleObj "verifies") "A"; edge (RoleObj "verifies") "B";
   edge (RoleObj "parent") "C"].

(** A link without role, then a parent link. *)
Definition links_na : list RawEdge :=
  [edge RoleNone "A"; edge (RoleObj "parent") "C"].

(** A link without target between two sound ones. *)
Definition links_broken : list RawEdge :=
  [edge (RoleObj "verifies") "A"; mkRawEdge (RoleObj "verifies") None;
   edge (RoleObj "parent") "C"].

End Demo.

(** ** More of [Workitem]: the flag setter, revert, getters and setters *)

(** [getattr(v, name)] on a value: only zeep objects carry the attributes
    read here ([id], [content], [Attachment]). *)
Definition py_getattr (v : pyval) (name : string) : exn + pyval :=
  match v with
  | VObj fields =>
      match getitem fields name with
      | Some x => inr x
      | None => inl (AttributeError name)
      end
  | _ => inl (AttributeError name)
  end.

(** The one-character strings of a string, as [for c in s] visits them. *)
Fixpoint chars (s : string) : list pyval :=
  match s with
  | EmptyString => []
  | String c rest => VStr (String c EmptyString) :: chars rest
  end.

(** [for x in v]: the elements of a list, the characters of a string, the
    keys of an object; the other values are not iterable. *)
Definition py_iter (v : pyval) : exn + list pyval :=
  match v with
  | VList items => inr items
  | VStr s => inr (chars s)
  | VObj fields => inr (map (fun kv => VStr (fst kv)) fields)
  | _ => inl (Fault "TypeError")
  end.

(** [value in lst] *)
Definition py_in (value : pyval) (lst : list pyval) : bool :=
  existsb (fun e => py_eq e value) lst.

(** The loop of [getAvailableStatus]:
    [for status in av_status: available_status.append(status.id)]. *)
Fixpoint status_ids (l : list pyval) (available_status : list pyval)
  : exn + list pyval :=
  match l with
  | [] => inr available_status
  | status :: l' =>
      match py_getattr status "id" with
      | inl e => inl e
      | inr i => status_ids l' (available_status ++ [i])
      end
  end.

(** [class HyperlinkRoles(Enum)] and the [value] of its members *)
Inductive HyperlinkRoles : Type :=
| INTERNAL_REF
| EXTERNAL_REF.

Definition HyperlinkRoles_value (r : HyperlinkRoles) : pyval :=
  match r with
  | INTERNAL_REF => VStr "internal reference"
  | EXTERNAL_REF => VStr "external reference"
  end.

Section Operations.

Variable Server : Type.
Variable updateWorkItem : Server -> gmap string pyval -> (exn + unit) * Server.
Variable getWorkItemByUri : Server -> pyval -> (exn + option RawRecord) * Server.

(** Any other operation of the Tracker service, called by name with its
    positional arguments. *)
Variable tracker : Server -> string -> list pyval -> (exn + pyval) * Server.

Local Notation "x <~ m ;; k" := (bind Server m (fun x => k))
  (at level 100, m at next level, right associativity).
Local Notation "m ;;; k" := (bind Server m (fun _ => k))
  (at level 100, right associativity).

Definition call_tracker (name : string) (args : list pyval) : M Server pyval :=
  fun w =>
    let '(r, s) := tracker (server w) name args in
    (r, mkWorld (self w) s (log w)).

(** The setter of the property [postpone_save], called with a boolean. *)
Definition postpone_save_setter (value : bool) : M Server unit :=
  modify_self Server (set_postpone_save value) ;;;
  if value then ret Server tt
  else save Server updateWorkItem getWorkItemByUri.

Definition revert_changes : M Server unit :=
  modify_self Server (set_postpone_save false) ;;;
  _reloadFromPolarion Server getWorkItemByUri.

Definition getDescription : M Server pyval :=
  wi <~ get_self Server ;;
  description <~ lift Server (self_attr wi "description") ;;
  match description with
  | VNone => ret Server VNone
  | other => lift Server (py_getattr other "content")
  end.

Definition getAvailableStatus : M Server (list pyval) :=
  wi <~ get_self Server ;;
  uri <~ lift Server (self_attr wi "uri") ;;
  av_status <~ call_tracker "getAvailableEnumOptionIdsForId" [uri; VStr "status"] ;;
  statuses <~ lift Server (py_iter av_status) ;;
  lift Server (status_ids statuses []).

Definition setStatus (status : pyval) : M Server unit :=
  available <~ getAvailableStatus ;;
  if py_in status available then
    wi <~ get_self Server ;;
    current <~ lift Server (self_attr wi "status") ;;
    match current with
    | VObj fields => setattr Server "status" (VObj (setitem fields "id" status))
    | _ => raise Server (AttributeError "id")
    end ;;;
    save Server updateWorkItem getWorkItemByUri
  else ret Server tt.

(** The methods that forward one call to the Tracker service and reload. *)
Definition addHyperlink (url : pyval) (hyperlink_type : HyperlinkRoles + pyval)
  : M Server unit :=
  let hyperlink_type :=
    match hyperlink_type with
    | inl member => HyperlinkRoles_value member
    | inr other => other
    end in
  wi <~ get_self Server ;;
  uri <~ lift Server (self_attr wi "uri") ;;
  call_tracker "addHyperlink" [uri; url; VObj [("id", hyperlink_type)]] ;;;
  _reloadFromPolarion Server getWorkItemByUri.

Definition removeHyperlink (url : pyval) : M Server unit :=
  wi <~ get_self Server ;;
  uri <~ lift Server (self_attr wi "uri") ;;
  call_tracker "removeHyperlink" [uri; url] ;;;
  _reloadFromPolarion Server getWorkItemByUri.

Definition deleteAttachment (id : pyval) : M Server unit :=
  wi <~ get_self Server ;;
  uri <~ lift Server (self_attr wi "uri") ;;
  call_tracker "deleteAttachment" [uri; id] ;;;
  _reloadFromPolarion Server getWorkItemByUri.

Definition addAttachmentData (data title file_name : pyval) : M Server unit :=
  wi <~ get_self Server ;;
  uri <~ lift Server (self_attr wi "uri") ;;
  call_tracker "createAttachment" [uri; file_name; title; data] ;;;
  _reloadFromPolarion Server getWorkItemByUri.

Definition updateAttachmentData (id data title file_name : pyval) : M Server unit :=
  wi <~ get_self Server ;;
  uri <~ lift Server (self_attr wi "uri") ;;
  call_tracker "updateAttachment" [uri; id; file_name; title; data] ;;;
  _reloadFromPolarion Server getWorkItemByUri.

(** The calls of these methods, as data. *)
Inductive forwarding : Type :=
| AddHyperlink (url : pyval) (hyperlink_type : HyperlinkRoles + pyval)
| RemoveHyperlink (url : pyval)
| DeleteAttachment (id : pyval)
| AddAttachmentData (data title file_name : pyval)
| UpdateAttachmentData (id data title file_name : pyval).

Definition forward (f : forwarding) : M Server unit :=
  match f with
  | AddHyperlink url t => addHyperlink url t
  | RemoveHyperlink url => removeHyperlink url
  | DeleteAttachment id => deleteAttachment id
  | AddAttachmentData d t n => addAttachmentData d t n
  | UpdateAttachmentData i d t n => updateAttachmentData i d t n
  end.

(** The operation and the arguments a forwarding method passes to the
    service, given [self.uri]. *)
Definition forwarding_call (f : forwarding) (uri : pyval) : string * list pyval :=
  match f with
  | AddHyperlink url (inl member) =>
      ("addHyperlink", [uri; url; VObj [("id", HyperlinkRoles_value member)]])
  | AddHyperlink url (inr other) =>
      ("addHyperlink", [uri; url; VObj [("id", other)]])
  | RemoveHyperlink url => ("removeHyperlink", [uri; url])
  | DeleteAttachment id => ("deleteAttachment", [uri; id])
  | AddAttachmentData d t n => ("createAttachment", [uri; n; t; d])
  | UpdateAttachmentData i d t n => ("updateAttachment", [uri; i; n; t; d])
  end.

(** [wi.postpone_save = True], a block of statements, then
    [wi.postpone_save = False]: the scope written with the setter. *)
Definition batch {A} (body : M Server A) : M Server unit :=
  postpone_save_setter true ;;;
  body ;;;
  postpone_save_setter false.

(** [WorkitemCreator.createFromUri]: [Workitem(polarion, project, None, uri)] *)
Definition createFromUri (base : gmap string pyval) (uri : pyval) : M Server unit :=
  __init__ Server getWorkItemByUri base uri None.

End Operations.

(** ** The property [document] *)

(** [s.split(sep)] for a one-character separator *)
Fixpoint str_split (sep : ascii) (s : string) : list string :=
  match s with
  | EmptyString => [EmptyString]
  | String c rest =>
      if Ascii.eqb c sep then EmptyString :: str_split sep rest
      else
        match str_split sep rest with
        | [] => [String c EmptyString]
        | seg :: segs => String c seg :: segs
        end
  end.

(** [sep.join(parts)] *)
Fixpoint str_join (sep : string) (parts : list string) : string :=
  match parts with
  | [] => EmptyString
  | [x] => x
  | x :: rest => x ++ sep ++ str_join sep rest
  end.

(** [lst.index(x)]; [None] is the [ValueError] *)
Fixpoint list_index (x : string) (lst : list string) : option nat :=
  match lst with
  | [] => None
  | y :: rest =>
      if String.eqb y x then Some 0
      else match list_index x rest with
           | Some i => Some (S i)
           | None => None
           end
  end.

(** [lst[start:stop]] for indices within the list *)
Definition slice (lst : list string) (start stop : nat) : list string :=
  firstn (stop - start) (skipn start lst).

(** The body of the property on the string [self.location]; [VNone] is the
    [return None] of the handler of [ValueError]. *)
Definition document_of (location : string) : pyval :=
  let location_split := str_split "/" location in
  match list_index "modules" location_split with
  | None => VNone
  | Some start =>
      match list_index "workitems" location_split with
      | None => VNone
      | Some stop => VStr (str_join "/" (slice location_split (start + 1) stop))
      end
  end.

Definition document (wi : Workitem) : exn + pyval :=
  match attrs wi !! "location" with
  | None => inl (AttributeError "location")
  | Some (VStr location) => inr (document_of location)
  | Some _ => inl (AttributeError "split")
  end.

(** A path segment: a string without [/]. *)
Fixpoint no_slash (s : string) : bool :=
  match s with
  | EmptyString => true
  | String c rest => negb (Ascii.eqb c "/") && no_slash rest
  end.

(** ** Attachments *)

Definition hasAttachment (wi : Workitem) : exn + bool :=
  match attrs wi !! "attachments" with
  | None => inl (AttributeError "attachments")
  | Some VNone => inr false
  | Some _ => inr true
  end.

Definition getAttachments (wi : Workitem) : exn + pyval :=
  match attrs wi !! "attachments" with
  | None => inl (AttributeError "attachments")
  | Some VNone => inr (VList [])
  | Some other => py_getattr other "Attachment"
  end.

(** The loop of [getAttachmentInfo]; falling off its end returns [None]. *)
Fixpoint find_attachment (l : list pyval) (attachment_id : pyval) : exn + pyval :=
  match l with
  | [] => inr VNone
  | attachment :: rest =>
      match py_getattr attachment "id" with
      | inl e => inl e
      | inr i =>
          if py_eq i attachment_id then inr attachment
          else find_attachment rest attachment_id
      end
  end.

Definition getAttachmentInfo (wi : Workitem) (attachment_id : pyval) : exn + pyval :=
  match hasAttachment wi with
  | inl e => inl e
  | inr false => inr VNone
  | inr true =>
      match getAttachments wi with
      | inl e => inl e
      | inr attachments =>
          match py_iter attachments with
          | inl e => inl e
          | inr l => find_attachment l attachment_id
          end
      end
  end.

(** ** Running an iterator to its end, keeping the iterator *)

(** [list(it)] together with the state [it] is left in. *)
Fixpoint drain (fuel : nat) (it : WorkItemIterator.t)
  : option ((WorkItemIterator.signal + list LinkedWorkitem) * WorkItemIterator.t) :=
  match fuel with
  | O => None
  | S fuel' =>
      match WorkItemIterator.__next__ it with
      | (inl WorkItemIterator.StopIteration, it') => Some (inr [], it')
      | (inl e, it') => Some (inl e, it')
      | (inr x, it') =>
          match drain fuel' it' with
          | Some (inr xs, it'') => Some (inr (x :: xs), it'')
          | other => other
          end
      end
  end.

(** The plain assignments [wi.key = value], in order. *)
Definition assignments (l : list (string * pyval)) : list mutation :=
  map (fun kv => Assign (fst kv) (snd kv)) l.

(** How many elements one pass of the iterator moves its cursor over: all
    of them, or those up to and with the first one without a target. *)
Fixpoint consumed (rest : list RawEdge) : nat :=
  match rest with
  | [] => 0
  | obj :: rest' => if has_target obj then S (consumed rest') else 1
  end.

(** ** Equality of work items: [_compareType] *)

(** [key.startswith('_')] *)
Definition starts_with_underscore (key : string) : bool :=
  match key with
  | String "_"%char _ => true
  | _ => false
  end.

(** [b[key]]: an object (or a dict) is looked up by key, with [KeyError]
    for a key it does not have; the other values raise [TypeError], which
    the model writes [Fault "TypeError"]. *)
Definition py_getitem (b : pyval) (key : string) : exn + pyval :=
  match b with
  | VObj fields =>
      match getitem fields key with
      | Some v => inr v
      | None => inl (KeyError key)
      end
  | _ => inl (Fault "TypeError")
  end.

Section Compare.

(** [type(x) == type(y)] for two objects: the classes of zeep objects are
    not part of the values. *)
Variable same_class : list (string * pyval) -> list (string * pyval) -> bool.

(** [_compareType(a, b)]. [a] and [b] are the dicts of [vars()] at the
    first call, then attribute values and list elements. The loop
    [for key in a] runs over the keys of an object, the characters of a
    string or the elements of a list; in an object, [a[key]] is the value
    of the entry visited. The result of the call made for the elements of
    a list is not looked at. *)
Fixpoint _compareType (a b : pyval) {struct a} : exn + bool :=
  match a with
  | VNone | VBool _ | VInt _ => inl (Fault "TypeError")
  | VStr s =>
      (fix each (s : string) : exn + bool :=
         match s with
         | EmptyString => inr true
         | String c rest =>
             if Ascii.eqb c "_" then each rest
             else inl (Fault "TypeError")
         end) s
  | VList l =>
      (fix each (l : list pyval) : exn + bool :=
         match l with
         | [] => inr true
         | VStr key :: rest =>
             if starts_with_underscore key then each rest
             else inl (Fault "TypeError")
         | _ :: _ => inl (AttributeError "startswith")
         end) l
  | VObj fields =>
      (fix each (fs : list (string * pyval)) : exn + bool :=
         match fs with
         | [] => inr true
         | (key, x) :: rest =>
             if starts_with_underscore key then each rest
             else
               match py_getitem b key with
               | inl e => inl e
               | inr y =>
                   match x, y with
                   | VNone, VNone | VBool _, VBool _ | VInt _, VInt _
                   | VStr _, VStr _ =>
                       if py_ne x y then inr false else each rest
                   | VList xs, VList ys =>
                       if negb (Nat.eqb (length xs) (length ys)) then inr false
                       else
                         match
                           (fix elements (xs ys : list pyval) : exn + unit :=
                              match xs, ys with
                              | sub_a :: xs', sub_b :: ys' =>
                                  match _compareType sub_a sub_b with
                                  | inl e => inl e
                                  | inr _ => elements xs' ys'
                                  end
                              | _, _ => inr tt
                              end) xs ys
                         with
                         | inl e => inl e
                         | inr _ => each rest
                         end
                   | VObj fx, VObj fy =>
                       if same_class fx fy then
                         match _compareType x y with
                         | inl e => inl e
                         | inr true => each rest
                         | inr false => inr false
                         end
                       else inr false
                   | _, _ => inr false
                   end
               end
         end) fields
  end.

(** The calls made for the elements of two lists of one length. *)
Fixpoint compare_elements (xs ys : list pyval) : exn + unit :=
  match xs, ys with
  | sub_a :: xs', sub_b :: ys' =>
      match _compareType sub_a sub_b with
      | inl e => inl e
      | inr _ => compare_elements xs' ys'
      end
  | _, _ => inr tt
  end.

(** One round of the loop over the keys of an object: the entry
    [(key, x)] of [a] against [b], with [continue] for the rounds that
    follow. *)
Definition compare_entry (entry : string * pyval) (b : pyval)
    (continue : exn + bool) : exn + bool :=
  let '(key, x) := entry in
  if starts_with_underscore key then continue
  else
    match py_getitem b key with
    | inl e => inl e
    | inr y =>
        match x, y with
        | VNone, VNone | VBool _, VBool _ | VInt _, VInt _ | VStr _, VStr _ =>
            if py_ne x y then inr false else continue
        | VList xs, VList ys =>
            if negb (Nat.eqb (length xs) (length ys)) then inr false
            else
              match compare_elements xs ys with
              | inl e => inl e
              | inr _ => continue
              end
        | VObj fx, VObj fy =>
            if same_class fx fy then
              match _compareType x y with
              | inl e => inl e
              | inr true => continue
              | inr false => inr false
              end
            else inr false
        | _, _ => inr false
        end
    end.

End Compare.

(** ** A tracker with failure switches, to run the further operations on *)

Module Lab.

Record Server : Type := mkServer {
  update_fails : bool;
  fetch_fails : bool;
  gone : bool;
  stored : RawRecord
}.

Definition updateWorkItem (s : Server) (updated_item : gmap string pyval)
  : (exn + unit) * Server :=
  if update_fails s then (inl (Fault "update rejected"), s)
  else (inr tt, mkServer (update_fails s) (fetch_fails s) (gone s)
                  (Demo.overwrite updated_item (stored s))).

Definition getWorkItemByUri (s : Server) (u : pyval)
  : (exn + option RawRecord) * Server :=
  if fetch_fails s then (inl (Fault "fetch failed"), s)
  else if gone s then (inr None, s)
  else (inr (Some (stored s)), s).

Definition tracker (s : Server) (name : string) (args : list pyval)
  : (exn + pyval) * Server :=
  if String.eqb name "getAvailableEnumOptionIdsForId" then
    (inr (VList [VObj [("id", VStr "open")]; VObj [("id", VStr "done")]]), s)
  else if update_fails s then (inl (Fault "rejected"), s)
  else (inr VNone, s).

Definition uri1 : pyval := VStr "subterra:data-service:objects:/default/P${WorkItem}P-7".

Definition item1 : RawRecord :=
  [("uri", uri1);
   ("unresolvable", VBool false);
   ("id", VStr "P-7");
   ("title", VStr "a");
   ("status", VObj [("id", VStr "open")]);
   ("resolution", VObj [("id", VStr "fixed"); ("name", VStr "Fixed")]);
   ("description", VNone);
   ("location", VStr "default:/Sandbox/modules/Specs/Design/workitems/P-7/workitem.xml");
   ("attachments",
    VObj [("Attachment",
           VList [VObj [("id", VStr "1-a.png"); ("title", VStr "first")];
                  VObj [("id", VStr "2-b.png"); ("title", VStr "second")];
                  VObj [("id", VStr "1-a.png"); ("title", VStr "again")]])])].

Definition W : Type := World Server.

Definition server_ok : Server := mkServer false false false item1.

(** The world after [Workitem(polarion, project, polarion_workitem=item1)],
    against the server [s]. *)
Definition constructed (s : Server) : W :=
  snd (__init__ Server getWorkItemByUri ∅ VNone (Some item1)
         (mkWorld (mkWorkitem VNone false None None ∅) s [])).

(** The same after [wi.title = 'b']. *)
Definition edited (s : Server) : W :=
  snd (setattr Server "title" (VStr "b") (constructed s)).

Definition run_save : M Server unit := save Server updateWorkItem getWorkItemByUri.
Definition run_reload : M Server unit := _reloadFromPolarion Server getWorkItemByUri.
Definition run_mutations (ms : list mutation) : M Server unit :=
  mutate_all Server updateWorkItem getWorkItemByUri Demo.TextType
    Demo.EnumOptionIdType ms.

Definition always (x y : list (string * pyval)) : bool := true.

End Lab.

(** * Properties *)

(** ** Values and records *)

Lemma py_eq_refl (a : pyval) : py_eq a a = true.
Proof.
  revert a. fix IH 1. intros [| b | z | s | items | fields]; simpl.
  - reflexivity.
  - apply Bool.eqb_reflx.
  - apply Z.eqb_refl.
  - apply String.eqb_refl.
  - induction items as [| x xs IHxs]; [reflexivity |].
    rewrite (IH x). simpl. exact IHxs.
  - induction fields as [| [k x] xs IHxs]; [reflexivity |].
    rewrite String.eqb_refl, (IH x). simpl. exact IHxs.
Qed.

Lemma py_ne_refl (a : pyval) : py_ne a a = false.
Proof. unfold py_ne. now rewrite py_eq_refl. Qed.

Lemma getitem_keys (value : RawRecord) (k : string) :
  k ∈ keys value <-> is_Some (getitem value k).
Proof.
  induction value as [| [k0 v0] rest IH]; simpl.
  - split; [intros H; inversion H | intros [x Hx]; discriminate].
  - destruct (String.eqb_spec k0 k) as [-> | Hne].
    + split; [eauto | intros _; left].
    + rewrite <- IH. split.
      * intros H. inversion H; subst; [congruence | assumption].
      * intros H. now right.
Qed.

(** The projection loop over the keys of the record it reads never fails,
    and leaves on the object the record's value at each of these keys. *)
Lemma project_lookup (ks : list string) (value : RawRecord) :
  forall a : gmap string pyval,
    (forall k, k ∈ ks -> is_Some (getitem value k)) ->
    exists a', project ks value a = inr a' /\
      forall k, a' !! k = if bool_decide (k ∈ ks) then getitem value k else a !! k.
Proof.
  induction ks as [| k0 ks IH]; intros a Hks; cbn [project].
  - exists a. split; [reflexivity |]. intros k.
    rewrite bool_decide_eq_false_2; [reflexivity | intros H; inversion H].
  - destruct (Hks k0) as [v Hv]; [left |]. rewrite Hv.
    destruct (IH (<[k0 := v]> a)) as (a' & Ha' & Hlk).
    { intros k Hk. apply Hks. now right. }
    exists a'. split; [exact Ha' |]. intros k. rewrite Hlk.
    destruct (decide (k ∈ ks)) as [Hin | Hnin].
    + rewrite !bool_decide_eq_true_2; [reflexivity | now right | assumption].
    + rewrite (bool_decide_eq_false_2 _ Hnin).
      destruct (decide (k = k0)) as [-> | Hne].
      * rewrite bool_decide_eq_true_2 by left.
        now rewrite lookup_insert_eq.
      * rewrite bool_decide_eq_false_2.
        -- now rewrite lookup_insert_ne.
        -- intros H. inversion H; subst; contradiction.
Qed.

Lemma changed_loop_lookup (ks : list string) (a : gmap string pyval)
    (original : RawRecord) :
  forall acc d : gmap string pyval,
    changed_loop ks a original acc = inr d ->
    forall k, d !! k =
      if bool_decide (k ∈ ks) && differs a original k then a !! k else acc !! k.
Proof.
  induction ks as [| k0 ks IH]; intros acc d Hd k; cbn [changed_loop] in Hd.
  - injection Hd as <-.
    rewrite bool_decide_eq_false_2; [reflexivity | intros H; inversion H].
  - destruct (a !! k0) as [c |] eqn:Hc; [| discriminate].
    destruct (getitem original k0) as [p |] eqn:Hp; [| discriminate].
    rewrite (IH _ _ Hd k).
    destruct (decide (k ∈ ks)) as [Hin | Hnin].
    + rewrite !bool_decide_eq_true_2; [| now right | assumption].
      destruct (differs a original k) eqn:Hdf; simpl; [reflexivity |].
      destruct (py_ne c p) eqn:Hne; [| reflexivity].
      destruct (decide (k = k0)) as [-> | Hneq].
      * unfold differs in Hdf. rewrite Hc, Hp in Hdf. congruence.
      * now rewrite lookup_insert_ne.
    + rewrite (bool_decide_eq_false_2 _ Hnin). simpl.
      destruct (decide (k = k0)) as [-> | Hneq].
      * rewrite bool_decide_eq_true_2 by left. simpl.
        unfold differs. rewrite Hc, Hp.
        destruct (py_ne c p); [now rewrite lookup_insert_eq | reflexivity].
      * rewrite bool_decide_eq_false_2.
        -- simpl. destruct (py_ne c p); [now rewrite lookup_insert_ne | reflexivity].
        -- intros H. inversion H; subst; contradiction.
Qed.

(** The loop of [save] runs to its end when every key it visits is an
    attribute of the object and of the snapshot. *)
Lemma changed_loop_total (ks : list string) (a : gmap string pyval)
    (original : RawRecord) :
  forall acc : gmap string pyval,
    (forall k, k ∈ ks -> is_Some (a !! k) /\ is_Some (getitem original k)) ->
    exists d, changed_loop ks a original acc = inr d.
Proof.
  induction ks as [| k0 ks IH]; intros acc Hks; cbn [changed_loop]; [eauto |].
  destruct (Hks k0) as [[c Hc] [p Hp]]; [left |]. rewrite Hc, Hp.
  apply IH. intros k Hk. apply Hks. now right.
Qed.

(** When no visited key differs, [updated_item] stays as it was. *)
Lemma changed_loop_unchanged (ks : list string) (a : gmap string pyval)
    (original : RawRecord) (acc d : gmap string pyval) :
  changed_loop ks a original acc = inr d ->
  (forall k, k ∈ ks -> differs a original k = false) ->
  d = acc.
Proof.
  intros Hd Hno. apply map_eq. intros k.
  rewrite (changed_loop_lookup _ _ _ _ _ Hd k).
  destruct (decide (k ∈ ks)) as [Hin | Hnin].
  - rewrite bool_decide_eq_true_2 by assumption. now rewrite (Hno k Hin).
  - now rewrite bool_decide_eq_false_2.
Qed.

Lemma changed_fields_lookup (wi : Workitem) (d : gmap string pyval) :
  changed_fields wi = inr d ->
  forall k, d !! k =
    if bool_decide (k ∈ record_keys wi) && field_differs wi k
    then attrs wi !! k else None.
Proof.
  unfold changed_fields, record_keys, field_differs.
  destruct (_polarion_item wi) as [value |]; [| discriminate].
  destruct (_original_polarion wi) as [original |]; [| discriminate].
  intros Hd k. rewrite (changed_loop_lookup _ _ _ _ _ Hd k).
  unfold differs. rewrite lookup_empty. reflexivity.
Qed.

Lemma changed_fields_none (wi : Workitem) (d : gmap string pyval) :
  changed_fields wi = inr d ->
  (forall k, k ∈ record_keys wi -> field_differs wi k = false) ->
  d = ∅.
Proof.
  intros Hd Hno. apply map_eq. intros k.
  rewrite (changed_fields_lookup _ _ Hd k), lookup_empty.
  destruct (decide (k ∈ record_keys wi)) as [Hin | Hnin].
  - rewrite (Hno k Hin). now rewrite andb_false_r.
  - now rewrite bool_decide_eq_false_2.
Qed.

Lemma flush_update_updates (wi : Workitem) :
  filter is_update (flush_update wi) = flush_update wi.
Proof.
  unfold flush_update. destruct (changed_fields wi) as [e | d]; [reflexivity |].
  destruct (0 <? size d)%nat; [| reflexivity].
  destruct (attrs wi !! "uri"); reflexivity.
Qed.

Lemma flush_update_length (wi : Workitem) : length (flush_update wi) <= 1.
Proof.
  unfold flush_update. destruct (changed_fields wi) as [e | d]; simpl; [lia |].
  destruct (0 <? size d)%nat; simpl; [| lia].
  destruct (attrs wi !! "uri"); simpl; lia.
Qed.

Lemma no_update_in (gets : list call) (p : gmap string pyval) :
  filter is_update gets = [] -> ~ In (UpdateWorkItem p) gets.
Proof.
  induction gets as [| c gets IH]; simpl; [tauto |].
  intros Hf [-> | Hin].
  - rewrite filter_cons in Hf. simpl in Hf. discriminate.
  - apply IH; [| exact Hin].
    rewrite filter_cons in Hf. destruct (decide (is_update c)); [discriminate | exact Hf].
Qed.

(** ** The mirror: build, reload, save *)

Section TrackerFacts.

Variable Server : Type.
Variable updateWorkItem : Server -> gmap string pyval -> (exn + unit) * Server.
Variable getWorkItemByUri : Server -> pyval -> (exn + option RawRecord) * Server.
Variable TextType : pyval -> pyval -> pyval -> pyval.
Variable EnumOptionIdType : pyval -> pyval.

Local Abbreviation W := (World Server).
Local Abbreviation build := (_buildWorkitemFromPolarion Server).
Local Abbreviation reload := (_reloadFromPolarion Server getWorkItemByUri).
Local Abbreviation save_ := (save Server updateWorkItem getWorkItemByUri).
Local Abbreviation enter := (__enter__ Server).
Local Abbreviation exit_ := (__exit__ Server updateWorkItem getWorkItemByUri).
Local Abbreviation scope := (with_ Server updateWorkItem getWorkItemByUri).
Local Abbreviation mutations :=
  (mutate_all Server updateWorkItem getWorkItemByUri TextType EnumOptionIdType).

Ltac unfold_m :=
  unfold bind, ret, raise, lift, get_self, modify_self,
    call_updateWorkItem, call_getWorkItemByUri in *.

(** What [_buildWorkitemFromPolarion] leaves alone. *)
Lemma build_frame (w : W) :
  log (snd (build w)) = log w /\
  server (snd (build w)) = server w /\
  _postpone_save (self (snd (build w))) = _postpone_save (self w) /\
  _polarion_item (self (snd (build w))) = _polarion_item (self w).
Proof.
  unfold _buildWorkitemFromPolarion. unfold_m.
  destruct (_polarion_item (self w)) as [value |] eqn:Hit; simpl; [| auto].
  destruct (getitem value "unresolvable") as [un |]; simpl; [| auto].
  destruct (truthy un); simpl; [auto |].
  destruct (_postpone_save (self w)) eqn:Hp; simpl; [auto |].
  destruct (project (keys value) value (attrs (self w))); simpl; auto.
Qed.

(** While saving is postponed, a build keeps the attributes of the object. *)
Lemma build_postponed_attrs (w : W) :
  _postpone_save (self w) = true ->
  attrs (self (snd (build w))) = attrs (self w).
Proof.
  intros Hp. unfold _buildWorkitemFromPolarion. unfold_m.
  destruct (_polarion_item (self w)) as [value |]; simpl; [| auto].
  destruct (getitem value "unresolvable") as [un |]; simpl; [| auto].
  destruct (truthy un); simpl; [auto |].
  rewrite Hp. reflexivity.
Qed.

(** A build that returns, with saving not postponed, leaves the object
    equal to the fresh snapshot. *)
Lemma build_resyncs (w : W) :
  _postpone_save (self w) = false ->
  fst (build w) = inr tt ->
  shadow_matches_snapshot (self (snd (build w))).
Proof.
  intros Hp. unfold _buildWorkitemFromPolarion. unfold_m.
  destruct (_polarion_item (self w)) as [value |] eqn:Hit; simpl; [| discriminate].
  destruct (getitem value "unresolvable") as [un |]; simpl; [| discriminate].
  destruct (truthy un); simpl; [discriminate |].
  rewrite Hp. simpl.
  destruct (project_lookup (keys value) value (attrs (self w))) as (a' & Ha' & Hlk).
  { intros k Hk. now apply getitem_keys. }
  rewrite Ha'. simpl. intros _.
  exists value. repeat split; [exact Hit |].
  intros k Hk. rewrite Hlk. now rewrite bool_decide_eq_true_2.
Qed.

(** An object equal to its snapshot has no changed field. *)
Lemma matching_shadow_no_change (wi : Workitem) :
  shadow_matches_snapshot wi -> changed_fields wi = inr ∅.
Proof.
  intros (original & Ho & Hi & Hall). unfold changed_fields. rewrite Hi, Ho.
  destruct (changed_loop_total (keys original) (attrs wi) original ∅) as [d Hd].
  { intros k Hk. rewrite (Hall k Hk). split; now apply getitem_keys. }
  rewrite Hd. f_equal.
  apply (changed_loop_unchanged _ _ _ _ _ Hd).
  intros k Hk. unfold differs. rewrite (Hall k Hk).
  destruct (getitem original k); [apply py_ne_refl | reflexivity].
Qed.

(** The calls of a reload: at most one fetch, no update. *)
Lemma reload_log (w : W) :
  exists gets, log (snd (reload w)) = log w ++ gets /\
    filter is_update gets = [].
Proof.
  unfold _reloadFromPolarion. unfold_m.
  destruct (item_attr (_polarion_item (self w)) "uri") as [e | u]; simpl.
  { exists []. now rewrite app_nil_r. }
  destruct (getWorkItemByUri (server w) u) as [[e | it] s]; simpl.
  { exists [GetWorkItemByUri u]. auto. }
  match goal with |- context [build ?w0] =>
    destruct (build_frame w0) as (Hl & _) end.
  rewrite Hl. simpl. exists [GetWorkItemByUri u]. auto.
Qed.

Lemma reload_flag (w : W) :
  _postpone_save (self (snd (reload w))) = _postpone_save (self w).
Proof.
  unfold _reloadFromPolarion. unfold_m.
  destruct (item_attr (_polarion_item (self w)) "uri") as [e | u]; simpl; [auto |].
  destruct (getWorkItemByUri (server w) u) as [[e | it] s]; simpl; [auto |].
  match goal with |- context [build ?w0] =>
    destruct (build_frame w0) as (_ & _ & Hf & _) end.
  rewrite Hf. reflexivity.
Qed.

Lemma reload_postponed_attrs (w : W) :
  _postpone_save (self w) = true ->
  attrs (self (snd (reload w))) = attrs (self w).
Proof.
  intros Hp. unfold _reloadFromPolarion. unfold_m.
  destruct (item_attr (_polarion_item (self w)) "uri") as [e | u]; simpl; [auto |].
  destruct (getWorkItemByUri (server w) u) as [[e | it] s]; simpl; [auto |].
  rewrite build_postponed_attrs; auto.
Qed.

Lemma reload_resyncs_when_not_postponed (w : W) :
  _postpone_save (self w) = false ->
  fst (reload w) = inr tt ->
  shadow_matches_snapshot (self (snd (reload w))).
Proof.
  intros Hp. unfold _reloadFromPolarion. unfold_m.
  destruct (item_attr (_polarion_item (self w)) "uri") as [e | u]; simpl; [discriminate |].
  destruct (getWorkItemByUri (server w) u) as [[e | it] s]; simpl; [discriminate |].
  intros H. apply build_resyncs; auto.
Qed.

Lemma issued_eq {A} (m : M Server A) (w : W) (l : list call) :
  log (snd (m w)) = log w ++ l -> issued m w = l.
Proof. intros H. unfold issued. rewrite H. apply drop_app_length. Qed.

(** The calls of [save]: the flush update unless saving is postponed, then
    the fetch of the reload. *)
Lemma save_log (w : W) :
  exists gets,
    log (snd (save_ w)) =
      log w ++ (if _postpone_save (self w) then [] else flush_update (self w)) ++ gets /\
    filter is_update gets = [] /\
    ((if _postpone_save (self w) then [] else flush_update (self w)) = [] -> gets = []).
Proof.
  unfold save, flush_update, self_attr. unfold_m.
  destruct (_postpone_save (self w)); simpl.
  { exists []. rewrite ?app_nil_r. auto. }
  destruct (changed_fields (self w)) as [e | d]; simpl.
  { exists []. rewrite ?app_nil_r. auto. }
  destruct (0 <? size d)%nat; simpl.
  2: { exists []. rewrite ?app_nil_r. auto. }
  destruct (attrs (self w) !! "uri") as [u |]; simpl.
  2: { exists []. rewrite ?app_nil_r. auto. }
  destruct (updateWorkItem (server w) (<["uri" := u]> d)) as [[e | []] s]; simpl.
  { exists []. rewrite ?app_nil_r. auto. }
  match goal with |- context [reload ?w0] =>
    destruct (reload_log w0) as (gets & Hl & Hg) end.
  exists gets. rewrite Hl. simpl. rewrite <- app_assoc. simpl.
  repeat split; [exact Hg | discriminate].
Qed.

Lemma save_flag (w : W) :
  _postpone_save (self (snd (save_ w))) = _postpone_save (self w).
Proof.
  unfold save, self_attr. unfold_m.
  destruct (_postpone_save (self w)) eqn:Hp; simpl; [exact Hp |].
  destruct (changed_fields (self w)) as [e | d]; simpl; [exact Hp |].
  destruct (0 <? size d)%nat; simpl; [| exact Hp].
  destruct (attrs (self w) !! "uri") as [u |]; simpl; [| exact Hp].
  destruct (updateWorkItem (server w) (<["uri" := u]> d)) as [[e | []] s]; simpl;
    [exact Hp |].
  rewrite reload_flag. exact Hp.
Qed.

Lemma save_updates (w : W) :
  filter is_update (issued save_ w) =
    if _postpone_save (self w) then [] else flush_update (self w).
Proof.
  destruct (save_log w) as (gets & Hl & Hg & _).
  rewrite (issued_eq _ _ _ Hl), filter_app, Hg, app_nil_r.
  destruct (_postpone_save (self w)); [reflexivity | apply flush_update_updates].
Qed.

(** C1 (amended). Every field [save] sends other than ["uri"] carries the
    value the object has for it and differs from the snapshot's value; the
    key ["uri"], the reference of the record, is always added to what is
    sent. When no field of the record differs, [save] issues no remote call
    at all. *)
Theorem save_sends_changed_fields_and_uri (w : W) :
  (forall p k v,
      In (UpdateWorkItem p) (issued save_ w) ->
      p !! k = Some v -> k <> "uri" ->
      attrs (self w) !! k = Some v /\ field_differs (self w) k = true) /\
  (forall p, In (UpdateWorkItem p) (issued save_ w) ->
      p !! "uri" = attrs (self w) !! "uri" /\ is_Some (p !! "uri")) /\
  ((forall k, k ∈ record_keys (self w) -> field_differs (self w) k = false) ->
   issued save_ w = []).
Proof.
  destruct (save_log w) as (gets & Hl & Hg & Hnil).
  rewrite (issued_eq _ _ _ Hl).
  assert (Hpay : forall p,
    In (UpdateWorkItem p)
      ((if _postpone_save (self w) then [] else flush_update (self w)) ++ gets) ->
    exists d u, changed_fields (self w) = inr d /\
      attrs (self w) !! "uri" = Some u /\ p = <["uri" := u]> d).
  { intros p Hin. apply in_app_or in Hin as [Hin | Hin].
    2: { now apply no_update_in in Hin. }
    destruct (_postpone_save (self w)); [inversion Hin |].
    unfold flush_update in Hin.
    destruct (changed_fields (self w)) as [e | d]; [inversion Hin |].
    destruct (0 <? size d)%nat; [| inversion Hin].
    destruct (attrs (self w) !! "uri") as [u |]; [| inversion Hin].
    destruct Hin as [Heq | []]. injection Heq as <-. eauto. }
  split; [| split].
  - intros p k v Hin Hk Hne.
    destruct (Hpay p Hin) as (d & u & Hd & Hu & ->).
    rewrite lookup_insert_ne in Hk by congruence.
    rewrite (changed_fields_lookup _ _ Hd k) in Hk.
    destruct (bool_decide (k ∈ record_keys (self w))); simpl in Hk; [| discriminate].
    destruct (field_differs (self w) k); [auto | discriminate].
  - intros p Hin. destruct (Hpay p Hin) as (d & u & Hd & Hu & ->).
    rewrite lookup_insert_eq, Hu. eauto.
  - intros Hno.
    assert (Hf : (if _postpone_save (self w) then [] else flush_update (self w)) = []).
    { destruct (_postpone_save (self w)); [reflexivity |].
      unfold flush_update.
      destruct (changed_fields (self w)) as [e | d] eqn:Hd; [reflexivity |].
      rewrite (changed_fields_none _ _ Hd Hno). reflexivity. }
    rewrite Hf, (Hnil Hf). reflexivity.
Qed.

(** C5. When the [updateWorkItem] call of [save] raises, [save] raises the
    same exception, the object is left exactly as it was (its attributes,
    its snapshot and its flag: the edits are still there and still differ
    from the snapshot), and the update is the only call made: no reload. *)
Theorem failed_update_keeps_edits (w : W) (d : gmap string pyval)
    (u : pyval) (e : exn) :
  _postpone_save (self w) = false ->
  changed_fields (self w) = inr d ->
  (0 < size d)%nat ->
  attrs (self w) !! "uri" = Some u ->
  fst (updateWorkItem (server w) (<["uri" := u]> d)) = inl e ->
  fst (save_ w) = inl e /\
  self (snd (save_ w)) = self w /\
  issued save_ w = [UpdateWorkItem (<["uri" := u]> d)] /\
  changed_fields (self (snd (save_ w))) = inr d.
Proof.
  intros Hp Hd Hsz Hu He.
  assert (Hrun : fst (save_ w) = inl e /\ self (snd (save_ w)) = self w /\
            log (snd (save_ w)) = log w ++ [UpdateWorkItem (<["uri" := u]> d)]).
  { unfold save, self_attr. unfold_m. rewrite Hp, Hd. simpl.
    apply Nat.ltb_lt in Hsz. rewrite Hsz, Hu. simpl.
    destruct (updateWorkItem (server w) (<["uri" := u]> d)) as [[e' | []] s];
      simpl in He; [| discriminate].
    injection He as ->. simpl. auto. }
  destruct Hrun as (Hr & Hs & Hl).
  repeat split; [exact Hr | exact Hs | now apply issued_eq | now rewrite Hs].
Qed.



Lemma flush_update_flag (b : bool) (wi : Workitem) :
  flush_update (set_postpone_save b wi) = flush_update wi.
Proof. reflexivity. Qed.

Lemma exit_updates (w : W) :
  filter is_update (issued exit_ w) = flush_update (self w).
Proof.
  unfold __exit__. unfold_m.
  set (w0 := mkWorld (set_postpone_save false (self w)) (server w) (log w)).
  change (filter is_update (drop (length (log w0)) (log (snd (save_ w0))))
          = flush_update (self w)).
  exact (save_updates w0).
Qed.

Lemma exit_flag (w : W) : _postpone_save (self (snd (exit_ w))) = false.
Proof.
  unfold __exit__. unfold_m.
  set (w0 := mkWorld (set_postpone_save false (self w)) (server w) (log w)).
  change (_postpone_save (self (snd (save_ w0))) = false).
  now rewrite save_flag.
Qed.

(** C7. Whatever the body of the scope did and whether it raised,
    [__exit__] clears the flag and runs [save] once on the result: the
    flag is off afterwards, at most one update is issued, an exception of
    [save] is what the [with] statement raises, and otherwise the outcome of
    the body stands. *)
Theorem scope_exit_clears_flag_and_saves {A} (body : M Server A) (w : W) :
  let rb := fst (body (snd (enter w))) in
  let wb := snd (body (snd (enter w))) in
  exit_ wb = save_ (mkWorld (set_postpone_save false (self wb)) (server wb) (log wb)) /\
  snd (scope body w) = snd (exit_ wb) /\
  fst (scope body w) =
    match fst (exit_ wb) with
    | inl e => inl e
    | inr _ => rb
    end /\
  _postpone_save (self (snd (scope body w))) = false /\
  filter is_update (issued exit_ wb) = flush_update (self wb) /\
  (count_updates (issued exit_ wb) <= 1)%nat.
Proof.
  intros rb wb.
  assert (Hs : snd (scope body w) = snd (exit_ wb) /\
               fst (scope body w) =
                 match fst (exit_ wb) with inl e => inl e | inr _ => rb end).
  { unfold with_. subst rb wb.
    destruct (enter w) as [r0 w1]. simpl.
    destruct (body w1) as [r w2]. simpl.
    destruct (exit_ w2) as [[e | []] w3]; simpl; auto. }
  destruct Hs as [Hs1 Hs2].
  repeat split.
  - exact Hs1.
  - exact Hs2.
  - rewrite Hs1. apply exit_flag.
  - apply exit_updates.
  - unfold count_updates. rewrite exit_updates. apply flush_update_length.
Qed.

(** While saving is postponed, the mutations only touch the attributes of
    the object: no call, no new snapshot, flag still set. *)
Lemma mutations_postponed (ms : list mutation) :
  forall w : W,
    _postpone_save (self w) = true ->
    let w' := snd (mutations ms w) in
    log w' = log w /\ server w' = server w /\
    _postpone_save (self w') = true /\
    _polarion_item (self w') = _polarion_item (self w) /\
    _original_polarion (self w') = _original_polarion (self w).
Proof.
  induction ms as [| m ms IH]; intros w Hp; cbn [mutate_all].
  - simpl. auto.
  - assert (Hm : let w1 := snd (mutate Server updateWorkItem getWorkItemByUri
                                  TextType EnumOptionIdType m w) in
                 log w1 = log w /\ server w1 = server w /\
                 _postpone_save (self w1) = true /\
                 _polarion_item (self w1) = _polarion_item (self w) /\
                 _original_polarion (self w1) = _original_polarion (self w)).
    { destruct m as [key value | description | resolution]; simpl.
      - auto.
      - unfold setDescription, setattr, save. unfold_m. simpl. rewrite Hp. simpl. auto.
      - unfold setResolution, setattr, save, self_attr. unfold_m. simpl.
        destruct (attrs (self w) !! "resolution") as [[| b | z | s | l | fs] |];
          simpl; rewrite ?Hp; simpl; auto. }
    unfold bind.
    destruct (mutate Server updateWorkItem getWorkItemByUri TextType
                EnumOptionIdType m w) as [[e | []] w1]; simpl in Hm |- *.
    + exact Hm.
    + destruct Hm as (H1 & H2 & H3 & H4 & H5).
      destruct (IH w1 H3) as (I1 & I2 & I3 & I4 & I5).
      repeat split; congruence.
Qed.

Lemma scope_log {A} (body : M Server A) (w : W) (l : list call) :
  log (snd (body (snd (enter w)))) = log w ++ l ->
  issued (scope body) w = l ++ issued exit_ (snd (body (snd (enter w)))).
Proof.
  intros Hb. unfold issued at 1.
  assert (Hs : snd (scope body w) = snd (exit_ (snd (body (snd (enter w)))))).
  { unfold with_. destruct (enter w) as [r0 w1]. simpl.
    destruct (body w1) as [r w2]. simpl.
    destruct (exit_ w2) as [[e | []] w3]; reflexivity. }
  rewrite Hs. set (wb := snd (body (snd (enter w)))) in *.
  assert (He : exists l', log (snd (exit_ wb)) = log wb ++ l').
  { unfold __exit__. unfold_m.
    match goal with |- context [save_ ?w0] =>
      destruct (save_log w0) as (gets & Hl & _) end.
    simpl in Hl. eauto. }
  destruct He as [l' Hl'].
  rewrite (issued_eq _ _ _ Hl'), Hl', Hb, <- app_assoc.
  apply drop_app_length.
Qed.


(** C8 (amended). One flag serves every scope: the exit of an inner scope,
    entered while an outer one is active, clears the flag and flushes the
    changes made so far; from there on [save] is no longer suppressed,
    although the outer scope has not ended. *)
Theorem inner_scope_exit_flushes_and_resumes {A} (inner : M Server A) (w : W) :
  let w1 := snd (enter w) in
  let wb := snd (inner (snd (enter w1))) in
  let w2 := snd (scope inner w1) in
  _postpone_save (self w1) = true /\
  _postpone_save (self w2) = false /\
  filter is_update (issued exit_ wb) = flush_update (self wb) /\
  filter is_update (issued save_ w2) = flush_update (self w2).
Proof.
  intros w1 wb w2.
  assert (Hf : _postpone_save (self w2) = false).
  { subst w2. unfold with_. destruct (enter w1) as [r0 w1'].
    destruct (inner w1') as [r w3] eqn:Hi.
    pose proof (exit_flag w3) as He.
    destruct (exit_ w3) as [[e | []] w4]; exact He. }
  repeat split.
  - exact Hf.
  - apply exit_updates.
  - rewrite save_updates, Hf. reflexivity.
Qed.

End TrackerFacts.

(** ** The linked work item iterator *)

Section IteratorFacts.

Import WorkItemIterator.

Lemma extend_append (o : option (list string)) (x : string) (l : list string) :
  extend (append o x) l = extend o (x :: l).
Proof.
  destruct o as [l0 |]; destruct l as [| y l]; simpl; try reflexivity;
    now rewrite <- app_assoc.
Qed.

Lemma split_roles_lists (l : list string) :
  forall dis allow,
    split_roles l dis allow =
      (extend dis (map strip (List.filter negated l)),
       extend allow (List.filter (fun t => negb (negated t)) l)).
Proof.
  induction l as [| r l IH]; intros dis allow; [reflexivity |].
  assert (Hcase : (negated r = true /\
                   split_roles (r :: l) dis allow
                   = split_roles l (append dis (strip r)) allow) \/
                  (negated r = false /\
                   split_roles (r :: l) dis allow
                   = split_roles l dis (append allow r))).
  { destruct r as [| [[] [] [] [] [] [] [] []] tail]; simpl; auto. }
  destruct Hcase as [[Hn ->] | [Hn ->]]; rewrite IH; cbn [List.filter map];
    rewrite Hn; cbn [negb map]; now rewrite extend_append.
Qed.

Lemma init_filters (c : option EdgeContainer) (roles : roles_arg) :
  __init__ c roles =
    mk c 0 (extend None (deny_list roles)) (extend None (allow_list roles)).
Proof.
  unfold __init__, deny_list, allow_list.
  destruct roles as [| s | l]; cbn [tokens]; [reflexivity | |];
    now rewrite split_roles_lists.
Qed.

Lemma accepted_admitsb (roles : roles_arg) (r : string) :
  accepted (extend None (deny_list roles)) (extend None (allow_list roles)) r
  = admitsb roles r.
Proof.
  unfold accepted, admitsb.
  destruct (deny_list roles); destruct (allow_list roles); reflexivity.
Qed.

Lemma role_in_In (r : string) (l : list string) : role_in r l = true <-> In r l.
Proof.
  unfold role_in. rewrite existsb_exists. split.
  - intros (x & Hx & He). apply String.eqb_eq in He. now subst.
  - intros H. exists r. split; [exact H | apply String.eqb_refl].
Qed.

Lemma admitsb_admits (roles : roles_arg) (r : string) :
  admitsb roles r = true <-> admits roles r.
Proof.
  unfold admitsb, admits.
  rewrite andb_true_iff, !orb_true_iff, negb_true_iff.
  rewrite <- (role_in_In r (allow_list roles)).
  assert (Hnil : forall l : list string, is_nil l = true <-> l = []).
  { intros [| x l]; simpl; split; congruence. }
  rewrite !Hnil.
  assert (Hneg : role_in r (deny_list roles) = false <-> ~ In r (deny_list roles)).
  { rewrite <- role_in_In. destruct (role_in r (deny_list roles)); split; congruence. }
  rewrite Hneg. reflexivity.
Qed.

(** One run of the [while] loop from the cursor: either it returns the next
    accepted edge and the cursor is behind it, or it raises and nothing is
    left to yield. *)
Lemma scan_yielded (dis allow : option (list string)) (rest : list RawEdge) :
  forall index,
    match scan dis allow rest index with
    | (inr x, j) =>
        exists n, j = index + S n /\ n < length rest /\
          yielded dis allow rest = x :: yielded dis allow (drop (S n) rest)
    | (inl s, _) => yielded dis allow rest = [] /\ s <> IndexError
    end.
Proof.
  induction rest as [| obj rest IH]; intros index; cbn [scan].
  - split; [reflexivity | discriminate].
  - unfold yielded. cbn [leading_valid]. unfold has_target, edge_of.
    destruct (obj_workItemURI obj) as [u |] eqn:Hu.
    2: { split; [reflexivity | discriminate]. }
    cbn [List.filter].
    destruct (accepted dis allow (role_of obj)) eqn:Hacc.
    + exists 0. cbn [map]. rewrite Hu.
      repeat split; [lia | simpl; lia].
    + specialize (IH (S index)).
      destruct (scan dis allow rest (S index)) as [[s | x] j].
      * exact IH.
      * destruct IH as (n & -> & Hn & Hy).
        exists (S n). repeat split; [lia | simpl; lia |].
        exact Hy.
Qed.

(** [list(it)] ends, and gives the accepted edges of the elements from the
    cursor up to the first one without a [workItemURI]. *)
Lemma collect_yielded (dis allow : option (list string)) (items : list RawEdge) :
  forall fuel index,
    length items - index < fuel ->
    collect fuel (mk (Some (mkEdgeContainer (Some items))) index dis allow)
    = Some (inr (yielded dis allow (drop index items))).
Proof.
  induction fuel as [| fuel IH]; intros index Hfuel; [lia |].
  cbn [collect]. unfold __next__, next_body. cbn [_linkedWorkItems LinkedWorkItem
    _disallowed_roles _allowed_roles _index].
  pose proof (scan_yielded dis allow (drop index items) index) as Hs.
  destruct (scan dis allow (drop index items) index) as [[s | x] j].
  - destruct Hs as [-> _]. destruct s; reflexivity.
  - destruct Hs as (n & -> & Hn & Hy).
    unfold set_index. cbn [_linkedWorkItems _disallowed_roles _allowed_roles].
    rewrite length_drop in Hn.
    rewrite IH by lia.
    rewrite Hy, drop_drop. reflexivity.
Qed.

Lemma leading_valid_all (items : list RawEdge) :
  Forall (fun obj => has_target obj = true) items -> leading_valid items = items.
Proof.
  induction 1 as [| obj rest Hobj _ IH]; [reflexivity |].
  cbn [leading_valid]. now rewrite Hobj, IH.
Qed.

Lemma collect_over_admitted (items : list RawEdge)
    (roles : roles_arg) (fuel : nat) :
  Forall (fun obj => has_target obj = true) items ->
  length items < fuel ->
  collect fuel (over items roles)
  = Some (inr (map edge_of
                 (List.filter (fun obj => admitsb roles (role_of obj)) items))) /\
  (forall x, In x (map edge_of
                     (List.filter (fun obj => admitsb roles (role_of obj)) items))
     <-> exists obj, In obj items /\ x = edge_of obj /\ admits roles (role_of obj)).
Proof.
  intros Hall Hfuel. split.
  - unfold over. rewrite init_filters, collect_yielded by lia.
    rewrite drop_0. unfold yielded. rewrite (leading_valid_all _ Hall).
    do 3 f_equal. apply List.filter_ext. intros obj. apply accepted_admitsb.
  - intros x. rewrite in_map_iff. split.
    + intros (obj & <- & Hin). apply filter_In in Hin as [Hin Had].
      exists obj. split; [exact Hin | split; [reflexivity | now apply admitsb_admits]].
    + intros (obj & Hin & -> & Had). exists obj. split; [reflexivity |].
      apply filter_In. split; [exact Hin | now apply admitsb_admits].
Qed.

(** C4. Over a collection whose elements all have a target, an iterator
    built with any [roles] yields, in the order of the collection and
    without dropping repetitions, exactly the elements whose role passes
    the rule: (the deny-list is empty or the role is not in it) and (the
    allow-list is empty or the role is in it). *)
Theorem iterator_yields_admitted_edges_in_order (items : list RawEdge)
    (roles : roles_arg) (fuel : nat) :
  Forall (fun obj => has_target obj = true) items ->
  length items < fuel ->
  collect fuel (over items roles)
  = Some (inr (map edge_of
                 (List.filter (fun obj => admitsb roles (role_of obj)) items))) /\
  (forall r, admitsb roles r = true <-> admits roles r) /\
  (forall x, In x (map edge_of
                     (List.filter (fun obj => admitsb roles (role_of obj)) items))
     <-> exists obj, In obj items /\ x = edge_of obj /\ admits roles (role_of obj)).
Proof.
  intros Hall Hfuel.
  destruct (collect_over_admitted items roles fuel Hall Hfuel)
    as (Hc & Hmem).
  split; [exact Hc | split; [| exact Hmem]].
  intros r. apply admitsb_admits.
Qed.

(** C9. An element without a role sub-structure (no attribute [role], or
    [role] is [None]) gets the role ["NA"]; it is among the yielded edges
    exactly when ["NA"] passes the rule, which needs an empty filter, or
    ["NA"] in the allow-list, or no allow-list and ["NA"] not denied. *)
Theorem edge_without_role_gets_sentinel (items : list RawEdge)
    (roles : roles_arg) (obj : RawEdge) (u : pyval) (fuel : nat) :
  obj_role obj = RoleMissing \/ obj_role obj = RoleNone ->
  obj_workItemURI obj = Some u ->
  In obj items ->
  Forall (fun o => has_target o = true) items ->
  length items < fuel ->
  role_of obj = "NA" /\
  edge_of obj = mkLinkedWorkitem "NA" u /\
  (exists out, collect fuel (over items roles) = Some (inr out) /\
     (In (mkLinkedWorkitem "NA" u) out <-> admits roles "NA")) /\
  (admits roles "NA" ->
     tokens roles = [] \/ In "NA" (allow_list roles) \/
     (allow_list roles = [] /\ ~ In "NA" (deny_list roles))).
Proof.
  intros Hrole Hu Hin Hall Hfuel.
  assert (Hna : role_of obj = "NA").
  { unfold role_of. destruct Hrole as [-> | ->]; reflexivity. }
  assert (He : edge_of obj = mkLinkedWorkitem "NA" u).
  { unfold edge_of. now rewrite Hna, Hu. }
  destruct (collect_over_admitted items roles fuel Hall Hfuel)
    as (Hc & Hmem).
  split; [exact Hna | split; [exact He | split]].
  - eexists. split; [exact Hc |]. rewrite Hmem. split.
    + intros (o & Ho & Heq & Had). injection Heq as Hr _. now rewrite <- Hr in Had.
    + intros Had. exists obj. rewrite Hna. auto.
  - intros [Hd Ha]. destruct Ha as [Ha | Ha]; [| auto].
    destruct Hd as [Hd | Hd]; [| auto].
    right; right. split; [exact Ha |]. rewrite Hd. intros [].
Qed.


End IteratorFacts.

(** ** The model at work on the small tracker *)

Section Runs.

Import Demo.

Local Abbreviation uri0 := (VStr "subterra:data-service:objects:/default/P${WorkItem}P-1").

(** The three filters of the collection [links]. *)
Example links_verifies :
  WorkItemIterator.collect 4 (over links (RolesSeq ["verifies"]))
  = Some (inr [mkLinkedWorkitem "verifies" (VStr "A");
               mkLinkedWorkitem "verifies" (VStr "B")]).
Proof. reflexivity. Qed.

Example links_not_parent :
  WorkItemIterator.collect 4 (over links (RolesStr "~parent"))
  = Some (inr [mkLinkedWorkitem "verifies" (VStr "A");
               mkLinkedWorkitem "verifies" (VStr "B")]).
Proof. reflexivity. Qed.

Example links_all :
  WorkItemIterator.collect 4 (over links RolesNone)
  = Some (inr [mkLinkedWorkitem "verifies" (VStr "A");
               mkLinkedWorkitem "verifies" (VStr "B");
               mkLinkedWorkitem "parent" (VStr "C")]).
Proof. reflexivity. Qed.

(** A link without target ends the list early; a later [__next__] resumes
    behind it. *)
Example links_broken_truncated :
  WorkItemIterator.collect 4 (over links_broken RolesNone)
  = Some (inr [mkLinkedWorkitem "verifies" (VStr "A")]) /\
  fst (WorkItemIterator.__next__ (WorkItemIterator.set_index 2 (over links_broken RolesNone)))
  = inr (mkLinkedWorkitem "parent" (VStr "C")).
Proof. split; reflexivity. Qed.

(** Counterexample to C1 as stated: after [wi.title = 'b'], the update
    [save] sends holds the key ["uri"], whose value on the object equals the
    snapshot's. *)
Lemma save_sends_uri_unchanged :
  ~ sends_only_differing_fields Server updateWorkItem getWorkItemByUri
      (dirty false).
Proof.
  intros H.
  specialize (H (<["uri" := uri0]> {["title" := VStr "b"]}) "uri").
  assert (Hd : field_differs (self (dirty false)) "uri" = false)
    by (vm_compute; reflexivity).
  rewrite H in Hd; [discriminate | | ].
  - vm_compute. left. reflexivity.
  - vm_compute. eauto.
Qed.

Lemma save_sends_changed_fields_and_uri_witness :
  (exists p, In (UpdateWorkItem p) (issued run_save (dirty false)) /\
     p !! "title" = Some (VStr "b") /\ "title" <> "uri" /\
     attrs (self (dirty false)) !! "title" = Some (VStr "b") /\
     field_differs (self (dirty false)) "title" = true) /\
  ((forall k, k ∈ record_keys (self (loaded false item0)) ->
      field_differs (self (loaded false item0)) k = false) /\
   issued run_save (loaded false item0) = []).
Proof.
  split.
  - destruct (save_sends_changed_fields_and_uri Server updateWorkItem
                getWorkItemByUri (dirty false)) as (H1 & _ & _).
    exists (<["uri" := uri0]> {["title" := VStr "b"]}).
    assert (Hin : In (UpdateWorkItem (<["uri" := uri0]> {["title" := VStr "b"]}))
                    (issued (save Server updateWorkItem getWorkItemByUri) (dirty false)))
      by (vm_compute; left; reflexivity).
    assert (Hk : (<["uri" := uri0]> {["title" := VStr "b"]} : gmap string pyval)
                   !! "title" = Some (VStr "b")) by (vm_compute; reflexivity).
    assert (Hne : "title" <> "uri") by discriminate.
    destruct (H1 _ _ _ Hin Hk Hne) as [Ha Hf].
    exact (conj Hin (conj Hk (conj Hne (conj Ha Hf)))).
  - destruct (save_sends_changed_fields_and_uri Server updateWorkItem
                getWorkItemByUri (loaded false item0)) as (_ & _ & H3).
    assert (Hno : forall k, k ∈ record_keys (self (loaded false item0)) ->
                    field_differs (self (loaded false item0)) k = false).
    { intros k Hk. apply list_elem_of_In in Hk. vm_compute in Hk.
      repeat (destruct Hk as [<- | Hk]; [vm_compute; reflexivity |]).
      destruct Hk. }
    split; [exact Hno | exact (H3 Hno)].
Defined.





Lemma failed_update_keeps_edits_witness :
  _postpone_save (self (dirty true)) = false /\
  changed_fields (self (dirty true)) = inr {["title" := VStr "b"]} /\
  (0 < size ({["title" := VStr "b"]} : gmap string pyval))%nat /\
  attrs (self (dirty true)) !! "uri" = Some uri0 /\
  fst (updateWorkItem (server (dirty true))
         (<["uri" := uri0]> {["title" := VStr "b"]}))
    = inl (Fault "update rejected") /\
  fst (run_save (dirty true)) = inl (Fault "update rejected") /\
  self (snd (run_save (dirty true))) = self (dirty true) /\
  issued run_save (dirty true)
    = [UpdateWorkItem (<["uri" := uri0]> {["title" := VStr "b"]})] /\
  changed_fields (self (snd (run_save (dirty true)))) = inr {["title" := VStr "b"]}.
Proof.
  assert (H1 : _postpone_save (self (dirty true)) = false)
    by (vm_compute; reflexivity).
  assert (H2 : changed_fields (self (dirty true)) = inr {["title" := VStr "b"]})
    by (vm_compute; reflexivity).
  assert (H3 : (0 < size ({["title" := VStr "b"]} : gmap string pyval))%nat)
    by (vm_compute; lia).
  assert (H4 : attrs (self (dirty true)) !! "uri" = Some uri0)
    by (vm_compute; reflexivity).
  assert (H5 : fst (updateWorkItem (server (dirty true))
                      (<["uri" := uri0]> {["title" := VStr "b"]}))
               = inl (Fault "update rejected")) by (vm_compute; reflexivity).
  exact (conj H1 (conj H2 (conj H3 (conj H4 (conj H5
           (failed_update_keeps_edits Server updateWorkItem getWorkItemByUri
              (dirty true) _ _ _ H1 H2 H3 H4 H5)))))).
Defined.


(** A scope whose body raises after an assignment: the exit still sends
    the one update, the flag is off, and the exception of the body is what
    the [with] statement raises. *)
Example scope_body_fault_still_flushes :
  let body := bind Server (run_mutations [Assign "title" (VStr "b")])
                (fun _ => raise Server (A := unit) (Fault "body")) in
  fst (run_with body (loaded false item0)) = inl (Fault "body") /\
  filter is_update (issued (run_with body) (loaded false item0))
  = [UpdateWorkItem (<["uri" := uri0]> {["title" := VStr "b"]})] /\
  _postpone_save (self (snd (run_with body (loaded false item0)))) = false.
Proof. vm_compute. repeat split; reflexivity. Qed.

(** Counterexample to C8 as stated: inside an outer scope, an inner scope
    around [wi.title = 'b'] issues an update at its exit and leaves the
    flag off. *)
Lemma inner_scope_exit_flushes :
  ~ inner_scope_stays_deferred Server updateWorkItem getWorkItemByUri
      (loaded false item0) (run_mutations [Assign "title" (VStr "b")]).
Proof.
  unfold inner_scope_stays_deferred. intros [H _].
  assert (Hc : count_updates
            (issued (with_ Server updateWorkItem getWorkItemByUri
                       (run_mutations [Assign "title" (VStr "b")]))
               (snd (__enter__ Server (loaded false item0)))) = 1)
    by (vm_compute; reflexivity).
  rewrite Hc in H. discriminate H.
Qed.

Lemma iterator_yields_admitted_edges_in_order_witness :
  Forall (fun obj => has_target obj = true) links /\
  length links < 4 /\
  WorkItemIterator.collect 4 (over links (RolesSeq ["verifies"; "~parent"]))
  = Some (inr [mkLinkedWorkitem "verifies" (VStr "A");
               mkLinkedWorkitem "verifies" (VStr "B")]).
Proof.
  assert (H1 : Forall (fun obj => has_target obj = true) links)
    by (repeat constructor).
  assert (H2 : length links < 4) by (simpl; lia).
  destruct (iterator_yields_admitted_edges_in_order links
              (RolesSeq ["verifies"; "~parent"]) 4 H1 H2) as (Hc & _ & _).
  exact (conj H1 (conj H2 Hc)).
Defined.

Lemma edge_without_role_gets_sentinel_witness :
  obj_role (edge RoleNone "A") = RoleNone /\
  In (edge RoleNone "A") links_na /\
  Forall (fun o => has_target o = true) links_na /\
  length links_na < 3 /\
  WorkItemIterator.role_of (edge RoleNone "A") = "NA" /\
  (exists out,
     WorkItemIterator.collect 3 (over links_na (RolesStr "~parent")) = Some (inr out) /\
     (In (mkLinkedWorkitem "NA" (VStr "A")) out <-> admits (RolesStr "~parent") "NA")).
Proof.
  assert (H1 : obj_role (edge RoleNone "A") = RoleNone) by reflexivity.
  assert (H2 : obj_workItemURI (edge RoleNone "A") = Some (VStr "A")) by reflexivity.
  assert (H3 : In (edge RoleNone "A") links_na) by (simpl; auto).
  assert (H4 : Forall (fun o => has_target o = true) links_na)
    by (repeat constructor).
  assert (H5 : length links_na < 3) by (simpl; lia).
  destruct (edge_without_role_gets_sentinel links_na (RolesStr "~parent")
              (edge RoleNone "A") (VStr "A") 3 (or_intror H1) H2 H3 H4 H5)
    as (Hr & _ & Hout & _).
  exact (conj H1 (conj H3 (conj H4 (conj H5 (conj Hr Hout))))).
Defined.


End Runs.

(** * Further properties of the mirror *)

Section MirrorFacts.

Variable Server : Type.
Variable updateWorkItem : Server -> gmap string pyval -> (exn + unit) * Server.
Variable getWorkItemByUri : Server -> pyval -> (exn + option RawRecord) * Server.
Variable TextType : pyval -> pyval -> pyval -> pyval.
Variable EnumOptionIdType : pyval -> pyval.

Local Abbreviation W := (World Server).
Local Abbreviation build := (_buildWorkitemFromPolarion Server).
Local Abbreviation reload := (_reloadFromPolarion Server getWorkItemByUri).
Local Abbreviation save_ := (save Server updateWorkItem getWorkItemByUri).
Local Abbreviation exit_ := (__exit__ Server updateWorkItem getWorkItemByUri).
Local Abbreviation mutations :=
  (mutate_all Server updateWorkItem getWorkItemByUri TextType EnumOptionIdType).

Ltac unfold_m :=
  unfold bind, ret, raise, lift, get_self, modify_self,
    call_updateWorkItem, call_getWorkItemByUri in *.

Lemma world_eta (w : W) : mkWorld (self w) (server w) (log w) = w.
Proof. destruct w; reflexivity. Qed.

(** When [_buildWorkitemFromPolarion] raises, nothing was changed. *)
Lemma failed_build_identity (w : W) (e : exn) :
  fst (build w) = inl e -> snd (build w) = w.
Proof.
  unfold _buildWorkitemFromPolarion. unfold_m.
  destruct (_polarion_item (self w)) as [value |] eqn:Hit; simpl; [| auto].
  destruct (getitem value "unresolvable") as [un |]; simpl; [| auto].
  destruct (truthy un); simpl; [auto |].
  destruct (_postpone_save (self w)); simpl; [discriminate |].
  destruct (project_lookup (keys value) value (attrs (self w))) as (a' & Ha' & _).
  { intros k Hk. now apply getitem_keys. }
  rewrite Ha'. simpl. discriminate.
Qed.

Lemma failed_reload_frame (w : W) (e : exn) :
  fst (reload w) = inl e ->
  attrs (self (snd (reload w))) = attrs (self w) /\
  _original_polarion (self (snd (reload w))) = _original_polarion (self w) /\
  _postpone_save (self (snd (reload w))) = _postpone_save (self w).
Proof.
  unfold _reloadFromPolarion. unfold_m.
  destruct (item_attr (_polarion_item (self w)) "uri") as [e1 | u]; simpl; [auto |].
  destruct (getWorkItemByUri (server w) u) as [[e1 | it] s]; simpl; [auto |].
  intros H. rewrite (failed_build_identity _ _ H). simpl. auto.
Qed.



(** A [save] that sees no changed field, or is postponed, does nothing. *)
Lemma save_nothing_to_send (w : W) :
  _postpone_save (self w) = true \/ changed_fields (self w) = inr ∅ ->
  save_ w = (inr tt, w).
Proof.
  unfold save. unfold_m. intros [Hp | Hd].
  - now rewrite Hp.
  - destruct (_postpone_save (self w)); [reflexivity |].
    rewrite Hd. reflexivity.
Qed.

(** A [save] that sent its update and returned left the object equal to
    the snapshot. *)
Lemma save_resyncs (w : W) (d : gmap string pyval) :
  _postpone_save (self w) = false ->
  changed_fields (self w) = inr d ->
  (0 < size d)%nat ->
  fst (save_ w) = inr tt ->
  shadow_matches_snapshot (self (snd (save_ w))).
Proof.
  intros Hp Hd Hsz. unfold save, self_attr. unfold_m. rewrite Hp, Hd. simpl.
  apply Nat.ltb_lt in Hsz. rewrite Hsz.
  destruct (attrs (self w) !! "uri") as [u |]; simpl; [| discriminate].
  destruct (updateWorkItem (server w) (<["uri" := u]> d)) as [[e | []] s];
    simpl; [discriminate |].
  intros Hok. apply reload_resyncs_when_not_postponed; [exact Hp |].
  destruct (reload _) as [[e | []] w']; [discriminate | reflexivity].
Qed.


(** X5. When the update of [save] went through and the fetch of the reload
    then raises, [save] raises that exception with the object unchanged:
    the same fields still differ from the old snapshot, so the next [save]
    sends the same update again. *)
Theorem update_is_resent_after_failed_fetch (w : W) (d : gmap string pyval)
    (u u' : pyval) (e : exn) (s1 s2 : Server) :
  _postpone_save (self w) = false ->
  changed_fields (self w) = inr d ->
  (0 < size d)%nat ->
  attrs (self w) !! "uri" = Some u ->
  updateWorkItem (server w) (<["uri" := u]> d) = (inr tt, s1) ->
  item_attr (_polarion_item (self w)) "uri" = inr u' ->
  getWorkItemByUri s1 u' = (inl e, s2) ->
  fst (save_ w) = inl e /\
  self (snd (save_ w)) = self w /\
  issued save_ w = [UpdateWorkItem (<["uri" := u]> d); GetWorkItemByUri u'] /\
  filter is_update (issued save_ (snd (save_ w)))
  = [UpdateWorkItem (<["uri" := u]> d)].
Proof.
  intros Hp Hd Hsz Hu Hup Hi Hget.
  assert (Hrun : save_ w =
            (inl e, mkWorld (self w) s2
                      (log w ++ [UpdateWorkItem (<["uri" := u]> d);
                                 GetWorkItemByUri u']))).
  { unfold save, self_attr, _reloadFromPolarion. unfold_m. rewrite Hp, Hd. simpl.
    apply Nat.ltb_lt in Hsz. rewrite Hsz, Hu. simpl. rewrite Hup. simpl.
    rewrite Hi. simpl. rewrite Hget. simpl. now rewrite <- app_assoc. }
  rewrite Hrun. simpl. repeat split.
  - apply issued_eq. now rewrite Hrun.
  - rewrite save_updates. simpl. rewrite Hp. unfold flush_update.
    rewrite Hd. apply Nat.ltb_lt in Hsz. now rewrite Hsz, Hu.
Qed.

(** X7. When the fetch of a reload returns [None], the reload raises
    [PolarionAccessError] and the object keeps [None] as its raw record,
    with attributes and snapshot untouched. From then on a reload and an
    unpostponed [save] both raise [AttributeError] without calling the
    service: the object cannot be brought back. *)
Theorem none_fetch_breaks_the_object (w : W) (u : pyval) (s : Server) :
  item_attr (_polarion_item (self w)) "uri" = inr u ->
  getWorkItemByUri (server w) u = (inr None, s) ->
  let w' := snd (reload w) in
  fst (reload w) = inl PolarionAccessError /\
  _polarion_item (self w') = None /\
  attrs (self w') = attrs (self w) /\
  _original_polarion (self w') = _original_polarion (self w) /\
  (exists name, reload w' = (inl (AttributeError name), w')) /\
  (_postpone_save (self w) = false ->
   exists name, save_ w' = (inl (AttributeError name), w')).
Proof.
  intros Hi Hget w'.
  assert (Hrun : reload w =
            (inl PolarionAccessError,
             mkWorld (set_polarion_item None (self w)) s
               (log w ++ [GetWorkItemByUri u]))).
  { unfold _reloadFromPolarion, _buildWorkitemFromPolarion. unfold_m.
    rewrite Hi. simpl. rewrite Hget. reflexivity. }
  subst w'. rewrite Hrun. simpl. repeat split.
  - exists "uri". unfold _reloadFromPolarion. unfold_m. reflexivity.
  - intros Hp. exists "__dict__". unfold save. unfold_m. simpl.
    rewrite Hp. reflexivity.
Qed.

(** The loop of [save] reads the attributes of the object only at the keys
    it visits. *)
Lemma changed_loop_ext (ks : list string) (a a' : gmap string pyval)
    (original : RawRecord) :
  (forall k, k ∈ ks -> a !! k = a' !! k) ->
  forall acc, changed_loop ks a original acc = changed_loop ks a' original acc.
Proof.
  induction ks as [| k0 ks IH]; intros Hks acc; cbn [changed_loop]; [reflexivity |].
  rewrite <- (Hks k0) by left.
  destruct (a !! k0) as [c |]; [| reflexivity].
  destruct (getitem original k0) as [p |]; [| reflexivity].
  apply IH. intros k Hk. apply Hks. now right.
Qed.


(** Plain assignments touch the attributes only, and only add keys. *)
Lemma assignments_frame (l : list (string * pyval)) :
  forall w : W,
    let w' := snd (mutations (assignments l) w) in
    fst (mutations (assignments l) w) = inr tt /\
    log w' = log w /\ server w' = server w /\
    _postpone_save (self w') = _postpone_save (self w) /\
    _polarion_item (self w') = _polarion_item (self w) /\
    _original_polarion (self w') = _original_polarion (self w) /\
    (forall k, is_Some (attrs (self w) !! k) -> is_Some (attrs (self w') !! k)).
Proof.
  induction l as [| [k0 v0] l IH]; intros w; cbn [assignments map mutate_all].
  - simpl. repeat split; auto.
  - unfold bind. simpl.
    match goal with |- context [mutate_all _ _ _ _ _ _ ?w0] =>
      destruct (IH w0) as (H0 & H1 & H2 & H3 & H4 & H5 & H6) end.
    fold (assignments l). simpl in *.
    repeat split; try assumption.
    intros k Hk. apply H6.
    destruct (decide (k = k0)) as [-> | Hne].
    + rewrite lookup_insert_eq. eauto.
    + now rewrite lookup_insert_ne.
Qed.


End MirrorFacts.

(** * The flag setter, revert, and the forwarding methods *)

Section OperationFacts.

Variable Server : Type.
Variable updateWorkItem : Server -> gmap string pyval -> (exn + unit) * Server.
Variable getWorkItemByUri : Server -> pyval -> (exn + option RawRecord) * Server.
Variable tracker : Server -> string -> list pyval -> (exn + pyval) * Server.
Variable TextType : pyval -> pyval -> pyval -> pyval.
Variable EnumOptionIdType : pyval -> pyval.

Local Abbreviation W := (World Server).
Local Abbreviation reload := (_reloadFromPolarion Server getWorkItemByUri).
Local Abbreviation save_ := (save Server updateWorkItem getWorkItemByUri).
Local Abbreviation enter := (__enter__ Server).
Local Abbreviation exit_ := (__exit__ Server updateWorkItem getWorkItemByUri).
Local Abbreviation scope := (with_ Server updateWorkItem getWorkItemByUri).
Local Abbreviation mutations :=
  (mutate_all Server updateWorkItem getWorkItemByUri TextType EnumOptionIdType).
Local Abbreviation revert := (revert_changes Server getWorkItemByUri).
Local Abbreviation setter := (postpone_save_setter Server updateWorkItem getWorkItemByUri).
Local Abbreviation batch_ := (batch Server updateWorkItem getWorkItemByUri).
Local Abbreviation forward_ := (forward Server getWorkItemByUri tracker).

Ltac unfold_m :=
  unfold bind, ret, raise, lift, get_self, modify_self,
    call_updateWorkItem, call_getWorkItemByUri, call_tracker in *.

Lemma clear_flag_id (w : W) :
  _postpone_save (self w) = false ->
  mkWorld (set_postpone_save false (self w)) (server w) (log w) = w.
Proof.
  destruct w as [[i p it o a] s l]. simpl. now intros ->.
Qed.


Lemma setter_true (w : W) : setter true w = enter w.
Proof. reflexivity. Qed.

Lemma setter_false (w : W) : setter false w = exit_ w.
Proof. reflexivity. Qed.

(** X9. Postponing with the setter is the [with] statement as long as the
    block returns: [postpone_save = True], the block, [postpone_save =
    False] leaves the same world as the scope around the block, and raises
    exactly when the scope does, with the same exception. *)
Theorem setter_batch_is_scope {A} (body : M Server A) (w : W) (x : A) :
  fst (body (snd (enter w))) = inr x ->
  snd (batch_ body w) = snd (scope body w) /\
  fst (batch_ body w) =
    match fst (scope body w) with
    | inl e => inl e
    | inr _ => inr tt
    end.
Proof.
  intros Hbody. unfold batch, with_, bind.
  rewrite setter_true.
  destruct (enter w) as [[e0 | []] w1] eqn:He; [discriminate He |].
  simpl in Hbody |- *.
  destruct (body w1) as [[e | x'] w2]; simpl in Hbody; [discriminate |].
  rewrite setter_false.
  destruct (exit_ w2) as [[e | []] w3]; auto.
Qed.



(** X12. [createFromUri] with a false [uri] ([None] or the empty string)
    raises [PolarionAccessError] without calling the service. With a true
    [uri] it makes exactly one call, the fetch of that [uri]; whatever the
    fetch raises comes out as [PolarionAccessError], while a fetch that
    returns [None] comes out as [AttributeError]. *)
Theorem createFromUri_fetches_once (w : W) (base : gmap string pyval) (u : pyval) :
  let create := createFromUri Server getWorkItemByUri base u in
  (truthy u = false ->
   fst (create w) = inl PolarionAccessError /\ issued create w = []) /\
  (truthy u = true ->
   issued create w = [GetWorkItemByUri u] /\
   (forall e, fst (getWorkItemByUri (server w) u) = inl e ->
      fst (create w) = inl PolarionAccessError) /\
   (fst (getWorkItemByUri (server w) u) = inr None ->
      exists name, fst (create w) = inl (AttributeError name))).
Proof.
  intros create. subst create. split; intros Hu.
  - assert (Hrun : createFromUri Server getWorkItemByUri base u w
                   = (inl PolarionAccessError,
                      mkWorld (mkWorkitem VNone false None None base)
                        (server w) (log w))).
    { unfold createFromUri, __init__. unfold_m. simpl. now rewrite Hu. }
    rewrite Hrun. split; [reflexivity |].
    apply issued_eq. rewrite Hrun. simpl. now rewrite app_nil_r.
  - assert (Hlog : log (snd (createFromUri Server getWorkItemByUri base u w))
                   = log w ++ [GetWorkItemByUri u]).
    { unfold createFromUri, __init__, item_attr. unfold_m. simpl. rewrite Hu. simpl.
      destruct (getWorkItemByUri (server w) u) as [[e | [it |]] s]; simpl;
        try reflexivity.
      destruct (getitem it "id") as [i |]; simpl; [| reflexivity].
      match goal with |- context [_buildWorkitemFromPolarion Server ?w0] =>
        destruct (build_frame Server w0) as (Hl & _) end.
      rewrite Hl. reflexivity. }
    split; [now apply issued_eq | split].
    + intros e He. unfold createFromUri, __init__. unfold_m. simpl. rewrite Hu. simpl.
      destruct (getWorkItemByUri (server w) u) as [[e' | it] s]; simpl in He |- *;
        [reflexivity | discriminate].
    + intros He. exists "id".
      unfold createFromUri, __init__, item_attr. unfold_m. simpl. rewrite Hu. simpl.
      destruct (getWorkItemByUri (server w) u) as [[e' | it] s]; simpl in He |- *;
        [discriminate |].
      injection He as ->. reflexivity.
Qed.

Lemma getitem_setitem (fields : list (string * pyval)) (name : string) (v : pyval) :
  getitem (setitem fields name v) name = Some v.
Proof.
  induction fields as [| [k x] rest IH]; simpl.
  - now rewrite String.eqb_refl.
  - destruct (String.eqb k name) eqn:Hk; simpl; rewrite Hk; [reflexivity | exact IH].
Qed.

Lemma getitem_setitem_ne (fields : list (string * pyval)) (name other : string)
    (v : pyval) :
  other <> name ->
  getitem (setitem fields name v) other = getitem fields other.
Proof.
  intros Hne. induction fields as [| [k x] rest IH]; simpl.
  - destruct (String.eqb_spec name other); [congruence | reflexivity].
  - destruct (String.eqb_spec k name) as [-> | Hk]; simpl.
    + destruct (String.eqb_spec name other); [congruence | reflexivity].
    + now rewrite IH.
Qed.

(** X13. Inside a scope, what [setDescription] and [setResolution] wrote
    is what the object shows, without any call: [getDescription] returns
    the description given (when the text object made by the client keeps
    its content), and the resolution object has the [id] given while its
    other attributes are as before. *)
Theorem setters_round_trip_in_scope (w : W) (d r : pyval) :
  _postpone_save (self w) = true ->
  py_getattr (TextType d (VStr "text/html") (VBool false)) "content" = inr d ->
  (let w' := snd (setDescription Server updateWorkItem getWorkItemByUri TextType d w) in
   fst (getDescription Server w') = inr d /\ log w' = log w) /\
  (forall fields,
     attrs (self w) !! "resolution" = Some (VObj fields) ->
     let w' := snd (setResolution Server updateWorkItem getWorkItemByUri
                      EnumOptionIdType r w) in
     exists fields', attrs (self w') !! "resolution" = Some (VObj fields') /\
       getitem fields' "id" = Some r /\
       (forall k, k <> "id" -> getitem fields' k = getitem fields k) /\
       log w' = log w).
Proof.
  intros Hp Hc. split.
  - unfold setDescription, getDescription, setattr, save, self_attr. unfold_m.
    simpl. rewrite Hp. simpl. rewrite lookup_insert_eq. simpl.
    destruct (TextType d (VStr "text/html") (VBool false)) eqn:Ht;
      simpl in Hc |- *; try discriminate.
    rewrite Hc. auto.
  - intros fields Hr.
    unfold setResolution, setattr, save, self_attr. unfold_m.
    rewrite Hr. simpl. rewrite Hp. simpl.
    exists (setitem fields "id" r). rewrite lookup_insert_eq.
    repeat split.
    + apply getitem_setitem.
    + intros k Hk. now apply getitem_setitem_ne.
Qed.

Lemma getAvailableStatus_frame (w : W) :
  self (snd (getAvailableStatus Server tracker w)) = self w /\
  log (snd (getAvailableStatus Server tracker w)) = log w.
Proof.
  unfold getAvailableStatus, self_attr. unfold_m.
  destruct (attrs (self w) !! "uri") as [u |]; simpl; [| auto].
  destruct (tracker (server w) "getAvailableEnumOptionIdsForId" [u; VStr "status"])
    as [[e | av] s]; simpl; [auto |].
  destruct (py_iter av) as [e | statuses]; simpl; auto.
Qed.

(** X14. [setStatus] with a status that is not among the available ones
    is silently ignored: it returns without touching the object and
    without saving. With an available status, inside a scope, the status
    object gets the [id] given and nothing is sent. *)
Theorem setStatus_only_sets_available_status (w : W) (status : pyval)
    (available : list pyval) :
  fst (getAvailableStatus Server tracker w) = inr available ->
  let run := setStatus Server updateWorkItem getWorkItemByUri tracker status in
  (py_in status available = false ->
   run w = (inr tt, snd (getAvailableStatus Server tracker w)) /\
   self (snd (run w)) = self w /\
   log (snd (run w)) = log w) /\
  (py_in status available = true ->
   _postpone_save (self w) = true ->
   forall fields, attrs (self w) !! "status" = Some (VObj fields) ->
   fst (run w) = inr tt /\
   attrs (self (snd (run w))) !! "status" = Some (VObj (setitem fields "id" status)) /\
   log (snd (run w)) = log w).
Proof.
  intros Hav run. subst run.
  destruct (getAvailableStatus_frame w) as [Hs Hl].
  unfold setStatus, bind.
  destruct (getAvailableStatus Server tracker w) as [[e | av] w1] eqn:Hget;
    simpl in Hav, Hs, Hl; [discriminate |].
  injection Hav as ->. split.
  - intros Hin. rewrite Hin. unfold_m. simpl. auto.
  - intros Hin Hp fields Hst. rewrite Hin.
    unfold setattr, save, self_attr. unfold_m. rewrite Hs, Hst. simpl.
    rewrite Hs, Hp. simpl. rewrite lookup_insert_eq. auto.
Qed.

Lemma forward_eq (f : forwarding) (w : W) :
  forward_ f w =
    match attrs (self w) !! "uri" with
    | None => (inl (AttributeError "uri"), w)
    | Some u =>
        match tracker (server w) (fst (forwarding_call f u)) (snd (forwarding_call f u)) with
        | (inl e, s) => (inl e, mkWorld (self w) s (log w))
        | (inr _, s) => reload (mkWorld (self w) s (log w))
        end
    end.
Proof.
  destruct f as [url [member | other] | url | id | d t n | i d t n];
    cbn [forward]; unfold addHyperlink, removeHyperlink, deleteAttachment,
      addAttachmentData, updateAttachmentData, self_attr; unfold_m;
    (destruct (attrs (self w) !! "uri") as [u |]; simpl; [| reflexivity]);
    match goal with |- context [tracker ?s ?n ?a] =>
      destruct (tracker s n a) as [[e | v] s'] end; reflexivity.
Qed.


End OperationFacts.

(** * The property [document] *)

Section DocumentFacts.

Lemma str_split_segment (x rest : string) :
  no_slash x = true ->
  str_split "/" (x ++ String "/" rest)%string = x :: str_split "/" rest.
Proof.
  induction x as [| c x IH]; intros Hx; simpl.
  - reflexivity.
  - simpl in Hx. apply andb_true_iff in Hx as [Hc Hx].
    apply negb_true_iff in Hc. rewrite Hc, (IH Hx). reflexivity.
Qed.

Lemma str_split_last (x : string) :
  no_slash x = true -> str_split "/" x = [x].
Proof.
  induction x as [| c x IH]; intros Hx; simpl; [reflexivity |].
  simpl in Hx. apply andb_true_iff in Hx as [Hc Hx].
  apply negb_true_iff in Hc. rewrite Hc, (IH Hx). reflexivity.
Qed.

(** Splitting a joined path gives its segments back. *)
Lemma str_split_join (parts : list string) :
  parts <> [] ->
  Forall (fun x => no_slash x = true) parts ->
  str_split "/" (str_join "/" parts) = parts.
Proof.
  induction parts as [| x rest IH]; intros Hne Hall; [contradiction |].
  inversion Hall as [| ? ? Hx Hrest]; subst.
  destruct rest as [| y rest'].
  - simpl. now apply str_split_last.
  - change (str_join "/" (x :: y :: rest'))
      with (x ++ String "/" (str_join "/" (y :: rest')))%string.
    rewrite (str_split_segment _ _ Hx), IH; [reflexivity | discriminate | exact Hrest].
Qed.

Lemma list_index_None (x : string) (l : list string) :
  list_index x l = None <-> x ∉ l.
Proof.
  induction l as [| y l IH]; simpl.
  - split; [intros _ H; inversion H | reflexivity].
  - destruct (String.eqb_spec y x) as [-> | Hne].
    + split; [discriminate | intros H; exfalso; apply H; left].
    + destruct (list_index x l) as [i |].
      * split; [discriminate |]. intros H. exfalso.
        assert (Hx : x ∉ l) by (intros Hin; apply H; now right).
        apply IH in Hx. discriminate.
      * split; [| reflexivity]. intros _ Hin.
        inversion Hin; subst; [congruence |].
        destruct IH as [IH1 _]. now apply IH1.
Qed.

Lemma list_index_first (x : string) (pre post : list string) :
  x ∉ pre -> list_index x (pre ++ x :: post) = Some (length pre).
Proof.
  induction pre as [| y pre IH]; intros Hx; simpl.
  - now rewrite String.eqb_refl.
  - destruct (String.eqb_spec y x) as [-> | Hne].
    + exfalso. apply Hx. left.
    + rewrite IH; [reflexivity |]. intros Hin. apply Hx. now right.
Qed.

Lemma slice_middle (a b c : list string) :
  slice (a ++ b ++ c) (length a) (length a + length b) = b.
Proof.
  unfold slice.
  replace (length a + length b - length a) with (length b) by lia.
  rewrite drop_app_length. apply take_app_length.
Qed.

(** X16. For a location [.../modules/<document>/workitems/...] the
    property [document] is the path between the two markers: with segments
    free of [/], no [modules] or [workitems] segment before the marker
    [modules] and no [workitems] segment inside the document path, it
    returns that path joined with [/]. *)
Theorem document_is_path_between_markers (wi : Workitem)
    (pre segs post : list string) :
  Forall (fun x => no_slash x = true) (pre ++ segs ++ post) ->
  "modules" ∉ pre ->
  "workitems" ∉ pre ->
  "workitems" ∉ segs ->
  attrs wi !! "location"
  = Some (VStr (str_join "/" (pre ++ "modules" :: segs ++ "workitems" :: post))) ->
  document wi = inr (VStr (str_join "/" segs)).
Proof.
  intros Hall Hm Hw Hws Hloc. unfold document. rewrite Hloc. f_equal.
  unfold document_of.
  assert (Hparts : Forall (fun x => no_slash x = true)
                     (pre ++ "modules" :: segs ++ "workitems" :: post)).
  { apply Forall_app in Hall as [Hpre Hrest].
    apply Forall_app in Hrest as [Hsegs Hpost].
    apply Forall_app. split; [exact Hpre |].
    constructor; [reflexivity |].
    apply Forall_app. split; [exact Hsegs |].
    constructor; [reflexivity | exact Hpost]. }
  rewrite str_split_join; [| now destruct pre | exact Hparts].
  rewrite (list_index_first "modules" pre _ Hm).
  assert (Hstop : list_index "workitems"
                    (pre ++ "modules" :: segs ++ "workitems" :: post)
                  = Some (length (pre ++ "modules" :: segs))).
  { replace (pre ++ "modules" :: segs ++ "workitems" :: post)
      with ((pre ++ "modules" :: segs) ++ "workitems" :: post)
      by (now rewrite <- app_assoc).
    apply list_index_first. intros Hin.
    apply elem_of_app in Hin as [Hin | Hin]; [contradiction |].
    apply elem_of_cons in Hin as [Heq | Hin]; [discriminate | contradiction]. }
  rewrite Hstop. f_equal. f_equal.
  replace (pre ++ "modules" :: segs ++ "workitems" :: post)
    with ((pre ++ ["modules"]) ++ segs ++ "workitems" :: post)
    by (now rewrite <- app_assoc).
  replace (length pre + 1) with (length (pre ++ ["modules"]))
    by (rewrite length_app; reflexivity).
  replace (length (pre ++ "modules" :: segs))
    with (length (pre ++ ["modules"]) + length segs)
    by (rewrite !length_app; simpl; lia).
  apply slice_middle.
Qed.

(** X17. [document] is [None] exactly when the location has no segment
    [modules] or no segment [workitems]; when both are there but
    [workitems] does not come after the segment that follows [modules], it
    is the empty string, not [None]. *)
Theorem document_missing_markers (wi : Workitem) (location : string) :
  attrs wi !! "location" = Some (VStr location) ->
  (document wi = inr VNone <->
   "modules" ∉ str_split "/" location \/ "workitems" ∉ str_split "/" location) /\
  (forall start stop,
     list_index "modules" (str_split "/" location) = Some start ->
     list_index "workitems" (str_split "/" location) = Some stop ->
     stop <= start + 1 ->
     document wi = inr (VStr "")).
Proof.
  intros Hloc. unfold document. rewrite Hloc. unfold document_of. split.
  - rewrite <- !list_index_None.
    destruct (list_index "modules" (str_split "/" location)) as [start |];
      [| split; auto].
    destruct (list_index "workitems" (str_split "/" location)) as [stop |];
      [| split; auto].
    split; [discriminate | intros [H | H]; discriminate].
  - intros start stop Hs Ht Hle. rewrite Hs, Ht. unfold slice.
    replace (stop - (start + 1)) with 0 by lia. reflexivity.
Qed.

End DocumentFacts.

(** * Attachments *)

Section AttachmentFacts.

Lemma find_attachment_first (pre post : list pyval) (a q i : pyval) :
  py_getattr a "id" = inr i ->
  py_eq i q = true ->
  (forall b, b ∈ pre -> exists j, py_getattr b "id" = inr j /\ py_eq j q = false) ->
  find_attachment (pre ++ a :: post) q = inr a.
Proof.
  intros Ha Hq. induction pre as [| b pre IH]; intros Hpre; simpl.
  - now rewrite Ha, Hq.
  - destruct (Hpre b) as (j & Hj & Hne); [left |].
    rewrite Hj, Hne. apply IH. intros b' Hb'. apply Hpre. now right.
Qed.

Lemma find_attachment_none (l : list pyval) (q : pyval) :
  (forall b, b ∈ l -> exists j, py_getattr b "id" = inr j /\ py_eq j q = false) ->
  find_attachment l q = inr VNone.
Proof.
  induction l as [| b l IH]; intros Hl; simpl; [reflexivity |].
  destruct (Hl b) as (j & Hj & Hne); [left |].
  rewrite Hj, Hne. apply IH. intros b' Hb'. apply Hl. now right.
Qed.

(** X18. [getAttachmentInfo] returns the first attachment of the list
    whose [id] equals the one asked for, and [None] when no attachment has
    it; without attachments ([attachments] is [None]) it returns [None];
    an attachment without [id] that comes before any match makes it raise
    [AttributeError]. *)
Theorem getAttachmentInfo_first_match (wi : Workitem) (q : pyval) :
  (attrs wi !! "attachments" = Some VNone -> getAttachmentInfo wi q = inr VNone) /\
  (forall fields l,
     attrs wi !! "attachments" = Some (VObj fields) ->
     getitem fields "Attachment" = Some (VList l) ->
     (forall pre a post i,
        l = pre ++ a :: post ->
        py_getattr a "id" = inr i -> py_eq i q = true ->
        (forall b, b ∈ pre ->
           exists j, py_getattr b "id" = inr j /\ py_eq j q = false) ->
        getAttachmentInfo wi q = inr a) /\
     ((forall b, b ∈ l ->
         exists j, py_getattr b "id" = inr j /\ py_eq j q = false) ->
      getAttachmentInfo wi q = inr VNone) /\
     (forall pre a post e,
        l = pre ++ a :: post ->
        py_getattr a "id" = inl e ->
        (forall b, b ∈ pre ->
           exists j, py_getattr b "id" = inr j /\ py_eq j q = false) ->
        getAttachmentInfo wi q = inl e)).
Proof.
  split.
  - intros Hn. unfold getAttachmentInfo, hasAttachment. now rewrite Hn.
  - intros fields l Ha Hl.
    assert (Hrun : getAttachmentInfo wi q = find_attachment l q).
    { unfold getAttachmentInfo, hasAttachment, getAttachments. rewrite Ha.
      simpl. now rewrite Hl. }
    rewrite Hrun. split; [| split].
    + intros pre a post i -> Hi Hq Hpre. now apply (find_attachment_first _ _ _ _ i).
    + apply find_attachment_none.
    + intros pre a post e -> He Hpre. clear Hl Hrun.
      induction pre as [| b pre IH]; simpl.
      * now rewrite He.
      * destruct (Hpre b) as (j & Hj & Hne); [left |].
        rewrite Hj, Hne. apply IH. intros b' Hb'. apply Hpre. now right.
Qed.

End AttachmentFacts.

(** * More on the iterator *)

Section IteratorPasses.

Import WorkItemIterator.

Lemma consumed_le (rest : list RawEdge) : consumed rest <= length rest.
Proof.
  induction rest as [| obj rest IH]; simpl; [lia |].
  destruct (has_target obj); lia.
Qed.

Lemma consumed_all (rest : list RawEdge) :
  Forall (fun obj => has_target obj = true) rest -> consumed rest = length rest.
Proof.
  induction 1 as [| obj rest Hobj _ IH]; simpl; [reflexivity |].
  now rewrite Hobj, IH.
Qed.

(** One run of the loop: where the cursor ends up. *)
Lemma scan_cursor (dis allow : option (list string)) (rest : list RawEdge) :
  forall index,
    match scan dis allow rest index with
    | (inr x, j) =>
        exists n, j = index + S n /\ n < length rest /\
          yielded dis allow rest = x :: yielded dis allow (drop (S n) rest) /\
          consumed rest = S n + consumed (drop (S n) rest)
    | (inl s, j) => yielded dis allow rest = [] /\ j = index + consumed rest
    end.
Proof.
  induction rest as [| obj rest IH]; intros index; cbn [scan].
  - split; [reflexivity | simpl; lia].
  - unfold yielded. cbn [leading_valid consumed]. unfold has_target, edge_of.
    destruct (obj_workItemURI obj) as [u |] eqn:Hu.
    2: { split; [reflexivity | lia]. }
    cbn [List.filter].
    destruct (accepted dis allow (role_of obj)) eqn:Hacc.
    + exists 0. cbn [map]. rewrite Hu.
      repeat split; [lia | simpl; lia].
    + specialize (IH (S index)).
      destruct (scan dis allow rest (S index)) as [[s | x] j].
      * destruct IH as [Hy Hj]. split; [exact Hy | lia].
      * destruct IH as (n & -> & Hn & Hy & Hc).
        exists (S n). repeat split; [lia | simpl; lia | exact Hy |].
        simpl. simpl in Hc. lia.
Qed.

(** [list(it)] and the state it leaves the iterator in. *)
Lemma drain_cursor (dis allow : option (list string)) (items : list RawEdge) :
  forall fuel index,
    length items - index < fuel ->
    drain fuel (mk (Some (mkEdgeContainer (Some items))) index dis allow)
    = Some (inr (yielded dis allow (drop index items)),
            mk (Some (mkEdgeContainer (Some items)))
              (index + consumed (drop index items)) dis allow).
Proof.
  induction fuel as [| fuel IH]; intros index Hfuel; [lia |].
  cbn [drain]. unfold __next__, next_body. cbn [_linkedWorkItems LinkedWorkItem
    _disallowed_roles _allowed_roles _index].
  pose proof (scan_cursor dis allow (drop index items) index) as Hs.
  destruct (scan dis allow (drop index items) index) as [[s | x] j].
  - destruct Hs as [-> ->]. unfold set_index. simpl. destruct s; reflexivity.
  - destruct Hs as (n & -> & Hn & Hy & Hc).
    unfold set_index. cbn [_linkedWorkItems _disallowed_roles _allowed_roles].
    rewrite length_drop in Hn.
    rewrite IH by lia.
    rewrite Hy, Hc, drop_drop. do 3 f_equal. lia.
Qed.

Lemma drain_collect (fuel : nat) :
  forall it, collect fuel it = fst <$> drain fuel it.
Proof.
  induction fuel as [| fuel IH]; intros it; [reflexivity |].
  cbn [collect drain].
  destruct (__next__ it) as [[[| | name] | x] it']; try reflexivity.
  rewrite IH. destruct (drain fuel it') as [[[e | xs] it''] |]; reflexivity.
Qed.

(** X19. The iterator is single pass: over a collection whose elements all
    have a target, [list(it)] leaves the cursor at the end of the
    collection, and iterating it again (with any number of calls) gives the
    empty list and leaves it where it is. *)
Theorem iterator_is_single_pass (items : list RawEdge) (roles : roles_arg)
    (fuel : nat) :
  Forall (fun obj => has_target obj = true) items ->
  length items < fuel ->
  exists it',
    drain fuel (over items roles)
    = Some (inr (map edge_of
                   (List.filter (fun obj => admitsb roles (role_of obj)) items)), it') /\
    collect fuel (over items roles) = fst <$> drain fuel (over items roles) /\
    _index it' = length items /\
    forall fuel', drain (S fuel') it' = Some (inr [], it').
Proof.
  intros Hall Hfuel. unfold over. rewrite init_filters.
  rewrite drain_collect.
  rewrite drain_cursor by lia. rewrite drop_0, (consumed_all _ Hall).
  cbn [Nat.add].
  exists (mk (Some (mkEdgeContainer (Some items))) (length items)
            (extend None (deny_list roles)) (extend None (allow_list roles))).
  split; [| split; [reflexivity | split; [reflexivity |]]].
  - unfold yielded. rewrite (leading_valid_all _ Hall).
    do 4 f_equal. apply List.filter_ext. intros obj. apply accepted_admitsb.
  - intros fuel'. rewrite drain_cursor by (simpl; lia).
    simpl. rewrite drop_all. simpl. now rewrite Nat.add_0_r.
Qed.

(** X20. An element without a target ends a pass but not the iterator:
    when the collection is [pre], then such an element, then [post], with
    every element of [pre] sound, [list(it)] gives the accepted edges of
    [pre] and leaves the cursor behind the element without target, and
    iterating again gives the accepted edges of [post] (up to its own first
    element without target). *)
Theorem iterator_resumes_after_broken_edge (pre post : list RawEdge)
    (broken : RawEdge) (roles : roles_arg) (fuel : nat) :
  Forall (fun obj => has_target obj = true) pre ->
  has_target broken = false ->
  length (pre ++ broken :: post) < fuel ->
  exists it',
    drain fuel (over (pre ++ broken :: post) roles)
    = Some (inr (map edge_of
                   (List.filter (fun obj => admitsb roles (role_of obj)) pre)), it') /\
    _index it' = S (length pre) /\
    collect fuel it'
    = Some (inr (yielded (_disallowed_roles it') (_allowed_roles it') post)) /\
    collect fuel (over post roles)
    = Some (inr (yielded (_disallowed_roles it') (_allowed_roles it') post)).
Proof.
  intros Hpre Hb Hfuel. unfold over. rewrite !init_filters.
  rewrite drain_cursor by lia. rewrite drop_0.
  assert (Hlead : leading_valid (pre ++ broken :: post) = pre).
  { clear Hfuel. induction Hpre as [| obj rest Hobj _ IH]; simpl.
    - now rewrite Hb.
    - now rewrite Hobj, IH. }
  assert (Hcons : consumed (pre ++ broken :: post) = S (length pre)).
  { clear Hfuel Hlead. induction Hpre as [| obj rest Hobj _ IH]; simpl.
    - now rewrite Hb.
    - now rewrite Hobj, IH. }
  rewrite Hcons. cbn [Nat.add].
  exists (mk (Some (mkEdgeContainer (Some (pre ++ broken :: post)))) (S (length pre))
            (extend None (deny_list roles)) (extend None (allow_list roles))).
  split; [| split; [reflexivity | split]].
  - unfold yielded. rewrite Hlead.
    do 4 f_equal. apply List.filter_ext. intros obj. apply accepted_admitsb.
  - cbn [_disallowed_roles _allowed_roles].
    rewrite length_app in Hfuel. cbn [length] in Hfuel.
    rewrite collect_yielded by (rewrite length_app; simpl; lia).
    replace (S (length pre)) with (length (pre ++ [broken]))
      by (rewrite length_app; simpl; lia).
    replace (pre ++ broken :: post) with ((pre ++ [broken]) ++ post)
      by (now rewrite <- app_assoc).
    now rewrite drop_app_length.
  - cbn [_disallowed_roles _allowed_roles].
    rewrite length_app in Hfuel. cbn [length] in Hfuel.
    rewrite collect_yielded by lia. now rewrite drop_0.
Qed.

(** X21. [__next__] never touches the collection or the filters, never
    moves the cursor back, moves it forward when it returns an edge, and
    keeps it within the collection. *)
Theorem next_advances_cursor_within_bounds (it : t) :
  let it' := snd (__next__ it) in
  _linkedWorkItems it' = _linkedWorkItems it /\
  _disallowed_roles it' = _disallowed_roles it /\
  _allowed_roles it' = _allowed_roles it /\
  _index it <= _index it' /\
  (forall x, fst (__next__ it) = inr x -> _index it < _index it') /\
  (forall c items,
     _linkedWorkItems it = Some c -> LinkedWorkItem c = Some items ->
     _index it <= length items -> _index it' <= length items).
Proof.
  intros it'. subst it'. destruct it as [lw index dis allow].
  unfold __next__, next_body. cbn [_linkedWorkItems _index _disallowed_roles
    _allowed_roles].
  destruct lw as [[[items |]] |]; cbn [LinkedWorkItem].
  - pose proof (scan_cursor dis allow (drop index items) index) as Hs.
    pose proof (consumed_le (drop index items)) as Hc.
    rewrite length_drop in Hc.
    destruct (scan dis allow (drop index items) index) as [[s | x] j].
    + destruct Hs as [_ ->].
      assert (Hgoal : forall s' : signal + LinkedWorkitem,
                (exists e, s' = inl e) ->
                let r := (s', set_index (index + consumed (drop index items))
                                (mk (Some (mkEdgeContainer (Some items))) index dis allow)) in
                _linkedWorkItems (snd r) = Some (mkEdgeContainer (Some items)) /\
                _disallowed_roles (snd r) = dis /\ _allowed_roles (snd r) = allow /\
                index <= _index (snd r) /\
                (forall x, fst r = inr x -> index < _index (snd r)) /\
                (forall c items0,
                   Some (mkEdgeContainer (Some items)) = Some c ->
                   LinkedWorkItem c = Some items0 ->
                   index <= length items0 -> _index (snd r) <= length items0)).
      { intros s' [e ->]. simpl. repeat split; try lia; try discriminate.
        intros c items0 Hc0 Hl Hle. injection Hc0 as <-. simpl in Hl.
        injection Hl as <-. lia. }
      destruct s; apply Hgoal; eauto.
    + destruct Hs as (n & -> & Hn & _ & _). rewrite length_drop in Hn.
      simpl. repeat split; try lia.
      intros c items0 Hc0 Hl Hle. injection Hc0 as <-. simpl in Hl.
      injection Hl as <-. lia.
  - simpl. repeat split; try lia; discriminate.
  - simpl. repeat split; try lia; discriminate.
Qed.

End IteratorPasses.

(** * Equality of work items *)

Section CompareFacts.

Variable same_class : list (string * pyval) -> list (string * pyval) -> bool.

Local Abbreviation cmp := (_compareType same_class).

(** The loop over the keys of an object, one round at a time. *)
Lemma compare_cons (entry : string * pyval) (rest : list (string * pyval))
    (b : pyval) :
  cmp (VObj (entry :: rest)) b
  = compare_entry same_class entry b (cmp (VObj rest) b).
Proof. destruct entry as [key x]. reflexivity. Qed.

Lemma compare_nil (b : pyval) : cmp (VObj []) b = inr true.
Proof. reflexivity. Qed.

Lemma compare_cons_congr (entry : string * pyval) (fs fs' : list (string * pyval))
    (b : pyval) :
  cmp (VObj fs) b = cmp (VObj fs') b ->
  cmp (VObj (entry :: fs)) b = cmp (VObj (entry :: fs')) b.
Proof. intros H. now rewrite !compare_cons, H. Qed.

(** X22. What a list attribute holds never decides the comparison: the
    result of the calls made for its elements is dropped, so replacing the
    list, anywhere in [a], by any list of the same length whose elements
    also compare without raising gives the same answer. *)
Theorem compare_ignores_list_contents (pre rest : list (string * pyval))
    (key : string) (xs xs' ys : list pyval) (b : pyval) :
  starts_with_underscore key = false ->
  py_getitem b key = inr (VList ys) ->
  length xs' = length xs ->
  compare_elements same_class xs ys = inr tt ->
  compare_elements same_class xs' ys = inr tt ->
  cmp (VObj (pre ++ (key, VList xs) :: rest)) b
  = cmp (VObj (pre ++ (key, VList xs') :: rest)) b.
Proof.
  intros Hk Hb Hlen Hxs Hxs'.
  induction pre as [| entry pre IH]; cbn [app].
  - rewrite !compare_cons. unfold compare_entry.
    rewrite Hk, Hb, Hlen, Hxs, Hxs'. reflexivity.
  - now apply compare_cons_congr.
Qed.

Lemma getitem_app_l (b extra : list (string * pyval)) (key : string) (y : pyval) :
  getitem b key = Some y -> getitem (b ++ extra) key = Some y.
Proof.
  induction b as [| [k v] b IH]; simpl; [discriminate |].
  destruct (String.eqb k key); [auto | exact IH].
Qed.

(** X23. The comparison only walks the attributes of [a]: when it gives an
    answer against [b], it gives the same answer against [b] with any
    further attributes, so an object can equal one that has more
    attributes than it has. The other way round it does not answer: a
    first public attribute of [a] that [b] lacks raises [KeyError]. *)
Theorem compare_ignores_extra_attributes (a b extra : list (string * pyval))
    (r : bool) :
  (cmp (VObj a) (VObj b) = inr r -> cmp (VObj a) (VObj (b ++ extra)) = inr r) /\
  (forall pre key x rest,
     Forall (fun e => starts_with_underscore (fst e) = true) pre ->
     starts_with_underscore key = false ->
     getitem b key = None ->
     cmp (VObj (pre ++ (key, x) :: rest)) (VObj b) = inl (KeyError key)).
Proof.
  split.
  - induction a as [| [key x] a IH]; [auto |].
    rewrite !compare_cons. unfold compare_entry, py_getitem.
    destruct (starts_with_underscore key); [exact IH |].
    destruct (getitem b key) as [y |] eqn:Hy; [| discriminate].
    rewrite (getitem_app_l _ extra _ _ Hy).
    destruct x, y; try (intros H; exact H);
      repeat match goal with
             | |- context [if ?c then _ else _] => destruct c
             | |- context [match ?c with inl _ => _ | inr _ => _ end] => destruct c
             end; auto; discriminate.
  - intros pre key x rest Hpre Hk Hb.
    induction Hpre as [| [k v] pre Hp _ IH]; cbn [app].
    + rewrite compare_cons. unfold compare_entry, py_getitem.
      now rewrite Hk, Hb.
    + rewrite compare_cons. unfold compare_entry. simpl in Hp. now rewrite Hp.
Qed.

End CompareFacts.

(** * The further properties at work *)

Section MoreRuns.

Import Lab.

Lemma constructed_matches : shadow_matches_snapshot (self (constructed server_ok)).
Proof.
  exists item1. split; [vm_compute; reflexivity |].
  split; [vm_compute; reflexivity |].
  intros k Hk. apply list_elem_of_In in Hk. vm_compute in Hk.
  repeat (destruct Hk as [<- | Hk]; [vm_compute; reflexivity |]).
  destruct Hk.
Qed.





Lemma update_is_resent_after_failed_fetch_witness :
  let s := mkServer false true false item1 in
  let w := edited s in
  let p := (<["uri" := uri1]> {["title" := VStr "b"]} : gmap string pyval) in
  fst (run_save w) = inl (Fault "fetch failed") /\
  self (snd (run_save w)) = self w /\
  issued run_save w = [UpdateWorkItem p; GetWorkItemByUri uri1] /\
  filter is_update (issued run_save (snd (run_save w))) = [UpdateWorkItem p].
Proof.
  intros s w p.
  apply (update_is_resent_after_failed_fetch Server updateWorkItem getWorkItemByUri
           w {["title" := VStr "b"]} uri1 uri1 (Fault "fetch failed")
           (mkServer false true false (Demo.overwrite p item1))
           (mkServer false true false (Demo.overwrite p item1))).
  - vm_compute; reflexivity.
  - vm_compute; reflexivity.
  - vm_compute; lia.
  - vm_compute; reflexivity.
  - vm_compute; reflexivity.
  - vm_compute; reflexivity.
  - vm_compute; reflexivity.
Defined.


Lemma none_fetch_breaks_the_object_witness :
  let s := mkServer false false true item1 in
  let w := edited s in
  item_attr (_polarion_item (self w)) "uri" = inr uri1 /\
  getWorkItemByUri (server w) uri1 = (inr None, s) /\
  fst (run_reload w) = inl PolarionAccessError /\
  _polarion_item (self (snd (run_reload w))) = None /\
  (exists name, run_save (snd (run_reload w))
                = (inl (AttributeError name), snd (run_reload w))).
Proof.
  intros s w.
  assert (H1 : item_attr (_polarion_item (self w)) "uri" = inr uri1)
    by (vm_compute; reflexivity).
  assert (H2 : getWorkItemByUri (server w) uri1 = (inr None, s))
    by (vm_compute; reflexivity).
  destruct (none_fetch_breaks_the_object Server updateWorkItem getWorkItemByUri
              w uri1 s H1 H2) as (Hr & Hi & _ & _ & _ & Hs).
  assert (Hp : _postpone_save (self w) = false) by (vm_compute; reflexivity).
  exact (conj H1 (conj H2 (conj Hr (conj Hi (Hs Hp))))).
Defined.

Local Abbreviation run_revert := (revert_changes Server getWorkItemByUri).
Local Abbreviation run_scope := (with_ Server updateWorkItem getWorkItemByUri).
Local Abbreviation run_batch := (batch Server updateWorkItem getWorkItemByUri).
Local Abbreviation run_forward := (forward Server getWorkItemByUri tracker).
Local Abbreviation run_setStatus :=
  (setStatus Server updateWorkItem getWorkItemByUri tracker).

(** The title edited inside a scope that has not ended. *)
Local Abbreviation in_scope :=
  (snd (run_mutations [Assign "title" (VStr "b")]
          (snd (__enter__ Server (constructed server_ok))))).


Lemma setter_batch_is_scope_witness :
  let body := run_mutations [Assign "title" (VStr "b")] in
  fst (body (snd (__enter__ Server (constructed server_ok)))) = inr tt /\
  snd (run_batch body (constructed server_ok))
  = snd (run_scope body (constructed server_ok)).
Proof.
  intros body.
  assert (H : fst (body (snd (__enter__ Server (constructed server_ok)))) = inr tt)
    by (vm_compute; reflexivity).
  destruct (setter_batch_is_scope Server updateWorkItem getWorkItemByUri body
              (constructed server_ok) tt H) as [Hw _].
  exact (conj H Hw).
Defined.



Lemma createFromUri_fetches_once_witness :
  let w0 : World Server := mkWorld (mkWorkitem VNone false None None ∅) server_ok [] in
  let wf : World Server :=
    mkWorld (mkWorkitem VNone false None None ∅) (mkServer false true false item1) [] in
  let wg : World Server :=
    mkWorld (mkWorkitem VNone false None None ∅) (mkServer false false true item1) [] in
  truthy (VStr "") = false /\
  fst (createFromUri Server getWorkItemByUri ∅ (VStr "") w0) = inl PolarionAccessError /\
  issued (createFromUri Server getWorkItemByUri ∅ (VStr "")) w0 = [] /\
  truthy uri1 = true /\
  issued (createFromUri Server getWorkItemByUri ∅ uri1) w0 = [GetWorkItemByUri uri1] /\
  fst (getWorkItemByUri (server wf) uri1) = inl (Fault "fetch failed") /\
  fst (createFromUri Server getWorkItemByUri ∅ uri1 wf) = inl PolarionAccessError /\
  fst (getWorkItemByUri (server wg) uri1) = inr None /\
  (exists name, fst (createFromUri Server getWorkItemByUri ∅ uri1 wg)
                = inl (AttributeError name)).
Proof.
  intros w0 wf wg.
  assert (H0 : truthy (VStr "") = false) by reflexivity.
  assert (H1 : truthy uri1 = true) by reflexivity.
  assert (Hf : fst (getWorkItemByUri (server wf) uri1) = inl (Fault "fetch failed"))
    by reflexivity.
  assert (Hg : fst (getWorkItemByUri (server wg) uri1) = inr None) by reflexivity.
  destruct (createFromUri_fetches_once Server getWorkItemByUri w0 ∅ (VStr ""))
    as [Ha _].
  destruct (Ha H0) as [Ha1 Ha2].
  destruct (createFromUri_fetches_once Server getWorkItemByUri w0 ∅ uri1) as [_ Hb].
  destruct (Hb H1) as (Hb1 & _ & _).
  destruct (createFromUri_fetches_once Server getWorkItemByUri wf ∅ uri1) as [_ Hc].
  destruct (Hc H1) as (_ & Hc2 & _).
  destruct (createFromUri_fetches_once Server getWorkItemByUri wg ∅ uri1) as [_ Hd].
  destruct (Hd H1) as (_ & _ & Hd3).
  exact (conj H0 (conj Ha1 (conj Ha2 (conj H1 (conj Hb1 (conj Hf
           (conj (Hc2 _ Hf) (conj Hg (Hd3 Hg))))))))).
Defined.

Lemma setters_round_trip_in_scope_witness :
  let w := snd (__enter__ Server (constructed server_ok)) in
  _postpone_save (self w) = true /\
  py_getattr (Demo.TextType (VStr "text") (VStr "text/html") (VBool false)) "content"
  = inr (VStr "text") /\
  fst (getDescription Server
         (snd (setDescription Server updateWorkItem getWorkItemByUri Demo.TextType
                 (VStr "text") w))) = inr (VStr "text") /\
  (exists fields',
     attrs (self (snd (setResolution Server updateWorkItem getWorkItemByUri
                         Demo.EnumOptionIdType (VStr "done") w))) !! "resolution"
     = Some (VObj fields') /\
     getitem fields' "id" = Some (VStr "done") /\
     getitem fields' "name" = Some (VStr "Fixed")).
Proof.
  intros w.
  assert (H1 : _postpone_save (self w) = true) by (vm_compute; reflexivity).
  assert (H2 : py_getattr (Demo.TextType (VStr "text") (VStr "text/html") (VBool false))
                 "content" = inr (VStr "text")) by reflexivity.
  destruct (setters_round_trip_in_scope Server updateWorkItem getWorkItemByUri
              Demo.TextType Demo.EnumOptionIdType w (VStr "text") (VStr "done") H1 H2)
    as [[Hd _] Hr].
  assert (H3 : attrs (self w) !! "resolution"
               = Some (VObj [("id", VStr "fixed"); ("name", VStr "Fixed")]))
    by (vm_compute; reflexivity).
  destruct (Hr _ H3) as (fields' & Hf & Hid & Hother & _).
  split; [exact H1 | split; [exact H2 | split; [exact Hd |]]].
  exists fields'. split; [exact Hf | split; [exact Hid |]].
  rewrite (Hother "name"); [reflexivity | discriminate].
Defined.

Lemma setStatus_only_sets_available_status_witness :
  let w := snd (__enter__ Server (constructed server_ok)) in
  fst (getAvailableStatus Server tracker w) = inr [VStr "open"; VStr "done"] /\
  py_in (VStr "closed") [VStr "open"; VStr "done"] = false /\
  self (snd (run_setStatus (VStr "closed") w)) = self w /\
  py_in (VStr "done") [VStr "open"; VStr "done"] = true /\
  attrs (self (snd (run_setStatus (VStr "done") w))) !! "status"
  = Some (VObj [("id", VStr "done")]).
Proof.
  intros w.
  assert (H : fst (getAvailableStatus Server tracker w) = inr [VStr "open"; VStr "done"])
    by (vm_compute; reflexivity).
  assert (H1 : py_in (VStr "closed") [VStr "open"; VStr "done"] = false) by reflexivity.
  assert (H2 : py_in (VStr "done") [VStr "open"; VStr "done"] = true) by reflexivity.
  assert (H3 : _postpone_save (self w) = true) by (vm_compute; reflexivity).
  assert (H4 : attrs (self w) !! "status" = Some (VObj [("id", VStr "open")]))
    by (vm_compute; reflexivity).
  destruct (setStatus_only_sets_available_status Server updateWorkItem
              getWorkItemByUri tracker w (VStr "closed") _ H) as [Ha _].
  destruct (Ha H1) as (_ & Hs & _).
  destruct (setStatus_only_sets_available_status Server updateWorkItem
              getWorkItemByUri tracker w (VStr "done") _ H) as [_ Hb].
  destruct (Hb H2 H3 _ H4) as (_ & Hst & _).
  exact (conj H (conj H1 (conj Hs (conj H2 Hst)))).
Defined.


Lemma document_is_path_between_markers_witness :
  let wi := self (constructed server_ok) in
  Forall (fun x => no_slash x = true)
    (["default:"; "Sandbox"] ++ ["Specs"; "Design"] ++ ["P-7"; "workitem.xml"]) /\
  attrs wi !! "location"
  = Some (VStr (str_join "/" (["default:"; "Sandbox"] ++ "modules" ::
                               ["Specs"; "Design"] ++ "workitems" ::
                               ["P-7"; "workitem.xml"]))) /\
  document wi = inr (VStr "Specs/Design").
Proof.
  intros wi.
  assert (H1 : Forall (fun x => no_slash x = true)
                 (["default:"; "Sandbox"] ++ ["Specs"; "Design"] ++ ["P-7"; "workitem.xml"]))
    by (repeat constructor).
  assert (H2 : "modules" ∉ ["default:"; "Sandbox"]).
  { intros Hin. apply list_elem_of_In in Hin. simpl in Hin.
    repeat (destruct Hin as [Hin | Hin]; [discriminate Hin |]). exact Hin. }
  assert (H3 : "workitems" ∉ ["default:"; "Sandbox"]).
  { intros Hin. apply list_elem_of_In in Hin. simpl in Hin.
    repeat (destruct Hin as [Hin | Hin]; [discriminate Hin |]). exact Hin. }
  assert (H4 : "workitems" ∉ ["Specs"; "Design"]).
  { intros Hin. apply list_elem_of_In in Hin. simpl in Hin.
    repeat (destruct Hin as [Hin | Hin]; [discriminate Hin |]). exact Hin. }
  assert (H5 : attrs wi !! "location"
               = Some (VStr (str_join "/" (["default:"; "Sandbox"] ++ "modules" ::
                                            ["Specs"; "Design"] ++ "workitems" ::
                                            ["P-7"; "workitem.xml"]))))
    by (vm_compute; reflexivity).
  exact (conj H1 (conj H5
           (document_is_path_between_markers wi _ _ _ H1 H2 H3 H4 H5))).
Defined.

Lemma document_missing_markers_witness :
  let plain := set_attrs {["location" := VStr "default:/Sandbox/workitems/P-7"]}
                 (self (constructed server_ok)) in
  let swapped := set_attrs {["location" := VStr "a/workitems/modules/b"]}
                   (self (constructed server_ok)) in
  attrs plain !! "location" = Some (VStr "default:/Sandbox/workitems/P-7") /\
  document plain = inr VNone /\
  attrs swapped !! "location" = Some (VStr "a/workitems/modules/b") /\
  document swapped = inr (VStr "").
Proof.
  intros plain swapped.
  assert (H1 : attrs plain !! "location" = Some (VStr "default:/Sandbox/workitems/P-7"))
    by (vm_compute; reflexivity).
  assert (H2 : attrs swapped !! "location" = Some (VStr "a/workitems/modules/b"))
    by (vm_compute; reflexivity).
  destruct (document_missing_markers plain _ H1) as [Hiff _].
  destruct (document_missing_markers swapped _ H2) as [_ Hempty].
  assert (Hno : "modules" ∉ str_split "/" "default:/Sandbox/workitems/P-7").
  { intros Hin. apply list_elem_of_In in Hin. vm_compute in Hin.
    repeat (destruct Hin as [Hin | Hin]; [discriminate Hin |]). exact Hin. }
  refine (conj H1 (conj _ (conj H2 (Hempty 2 1 _ _ _)))).
  - apply Hiff. left. exact Hno.
  - reflexivity.
  - reflexivity.
  - lia.
Defined.

Lemma getAttachmentInfo_first_match_witness :
  let wi := self (constructed server_ok) in
  let first := VObj [("id", VStr "1-a.png"); ("title", VStr "first")] in
  getAttachmentInfo wi (VStr "1-a.png") = inr first /\
  getAttachmentInfo wi (VStr "9-z.png") = inr VNone /\
  getAttachmentInfo (set_attrs {["attachments" := VNone]} wi) (VStr "1-a.png")
  = inr VNone.
Proof.
  intros wi first.
  destruct (getAttachmentInfo_first_match wi (VStr "1-a.png")) as [_ Ha].
  destruct (getAttachmentInfo_first_match wi (VStr "9-z.png")) as [_ Hb].
  destruct (getAttachmentInfo_first_match
              (set_attrs {["attachments" := VNone]} wi) (VStr "1-a.png")) as [Hc _].
  assert (Hattr : attrs wi !! "attachments"
            = Some (VObj [("Attachment",
                 VList [first;
                        VObj [("id", VStr "2-b.png"); ("title", VStr "second")];
                        VObj [("id", VStr "1-a.png"); ("title", VStr "again")]])]))
    by (vm_compute; reflexivity).
  destruct (Ha _ _ Hattr eq_refl) as (Hfirst & _ & _).
  destruct (Hb _ _ Hattr eq_refl) as (_ & Hnone & _).
  refine (conj (Hfirst [] first _ (VStr "1-a.png") eq_refl eq_refl eq_refl _)
            (conj (Hnone _) (Hc _))).
  - intros b Hb'. inversion Hb'.
  - intros b Hb'. apply list_elem_of_In in Hb'. simpl in Hb'.
    destruct Hb' as [<- | [<- | [<- | []]]]; eexists; split; reflexivity.
  - vm_compute. reflexivity.
Defined.

Lemma iterator_is_single_pass_witness :
  Forall (fun obj => has_target obj = true) Demo.links /\
  length Demo.links < 4 /\
  exists it',
    drain 4 (over Demo.links (RolesSeq ["verifies"]))
    = Some (inr [mkLinkedWorkitem "verifies" (VStr "A");
                 mkLinkedWorkitem "verifies" (VStr "B")], it') /\
    WorkItemIterator._index it' = 3 /\
    drain 1 it' = Some (inr [], it').
Proof.
  assert (H1 : Forall (fun obj => has_target obj = true) Demo.links)
    by (repeat constructor).
  assert (H2 : length Demo.links < 4) by (simpl; lia).
  destruct (iterator_is_single_pass Demo.links (RolesSeq ["verifies"]) 4 H1 H2)
    as (it' & Hd & _ & Hi & Hagain).
  split; [exact H1 | split; [exact H2 |]].
  exists it'. exact (conj Hd (conj Hi (Hagain 0))).
Defined.

Lemma iterator_resumes_after_broken_edge_witness :
  let pre := [Demo.edge (RoleObj "verifies") "A"] in
  let broken := mkRawEdge (RoleObj "verifies") None in
  let post := [Demo.edge (RoleObj "parent") "C"] in
  Forall (fun obj => has_target obj = true) pre /\
  has_target broken = false /\
  length (pre ++ broken :: post) < 4 /\
  exists it',
    drain 4 (over (pre ++ broken :: post) RolesNone)
    = Some (inr [mkLinkedWorkitem "verifies" (VStr "A")], it') /\
    WorkItemIterator._index it' = 2 /\
    WorkItemIterator.collect 4 it'
    = Some (inr [mkLinkedWorkitem "parent" (VStr "C")]).
Proof.
  intros pre broken post.
  assert (H1 : Forall (fun obj => has_target obj = true) pre) by (repeat constructor).
  assert (H2 : has_target broken = false) by reflexivity.
  assert (H3 : length (pre ++ broken :: post) < 4) by (simpl; lia).
  destruct (iterator_resumes_after_broken_edge pre post broken RolesNone 4 H1 H2 H3)
    as (it' & Hd & Hi & Hc & Hsame).
  split; [exact H1 | split; [exact H2 | split; [exact H3 |]]].
  exists it'. split; [exact Hd | split; [exact Hi |]].
  rewrite Hc, <- Hsame. reflexivity.
Defined.

Lemma next_advances_cursor_within_bounds_witness :
  let it := over Demo.links (RolesStr "parent") in
  fst (WorkItemIterator.__next__ it) = inr (mkLinkedWorkitem "parent" (VStr "C")) /\
  WorkItemIterator._index it < WorkItemIterator._index (snd (WorkItemIterator.__next__ it)) /\
  WorkItemIterator._index (snd (WorkItemIterator.__next__ it)) <= length Demo.links.
Proof.
  intros it.
  assert (H : fst (WorkItemIterator.__next__ it)
              = inr (mkLinkedWorkitem "parent" (VStr "C"))) by reflexivity.
  destruct (next_advances_cursor_within_bounds it) as (_ & _ & _ & _ & Hlt & Hle).
  refine (conj H (conj (Hlt _ H) (Hle (mkEdgeContainer (Some Demo.links)) Demo.links
                                    eq_refl eq_refl _))).
  simpl. lia.
Defined.

Lemma compare_ignores_list_contents_witness :
  let hyperlink (u : string) := VObj [("uri", VStr u)] in
  let a := [("title", VStr "a"); ("links", VList [hyperlink "x"])] in
  let a' := [("title", VStr "a"); ("links", VList [hyperlink "y"])] in
  let b := VObj [("title", VStr "a"); ("links", VList [hyperlink "x"])] in
  _compareType always (VObj a) b = inr true /\
  _compareType always (VObj a') b = inr true.
Proof.
  intros hyperlink a a' b.
  assert (H : _compareType always (VObj a) b = inr true) by reflexivity.
  pose proof (compare_ignores_list_contents always [("title", VStr "a")] []
                "links" [hyperlink "x"] [hyperlink "y"] [hyperlink "x"] b
                eq_refl eq_refl eq_refl eq_refl eq_refl) as Heq.
  exact (conj H (eq_trans (eq_sym Heq) H)).
Defined.

Lemma compare_ignores_extra_attributes_witness :
  let a := [("title", VStr "a")] in
  let b := [("title", VStr "a")] in
  let extra := [("revision_number", VInt 7)] in
  _compareType always (VObj a) (VObj b) = inr true /\
  _compareType always (VObj a) (VObj (b ++ extra)) = inr true /\
  _compareType always (VObj ([("_id", VStr "P-7")] ++ ("revision_number", VInt 7) :: a))
    (VObj b) = inl (KeyError "revision_number").
Proof.
  intros a b extra.
  assert (H : _compareType always (VObj a) (VObj b) = inr true) by reflexivity.
  destruct (compare_ignores_extra_attributes always a b extra true) as [Hmore Hless].
  refine (conj H (conj (Hmore H) (Hless [("_id", VStr "P-7")] "revision_number"
                                    (VInt 7) a _ eq_refl eq_refl))).
  repeat constructor.
Defined.

End MoreRuns.
